(** * Plan annotation of job diffs (scheduler/annotate.go)

    A shallow embedding of [Annotate] and its helpers, and the properties
    the specification states about them.

    The Go code mutates the diff tree through pointers.  The diff tree is a
    tree: every node is owned by exactly one parent, so a mutation through a
    pointer is modelled as a functional update of the node, and every
    function returns the tree it leaves behind together with its Go result.
    A [nil] map is [None], an allocated map is [Some m]. *)

From Stdlib Require Import ZArith NArith Ascii String List Permutation Lia.
From stdpp Require Import base option list strings gmap.

Local Open Scope string_scope.
Local Open Scope list_scope.

(** ** Data model *)

(** Modelled from the spec: the package [nomad/structs] (its type
    declarations are not part of the annotated file).  Section 3 of the
    specification: [Type] ranges over None, Added, Deleted, Edited. *)
Inductive DiffType : Set :=
  | DiffTypeNone
  | DiffTypeAdded
  | DiffTypeDeleted
  | DiffTypeEdited.

#[global] Instance DiffType_eq_dec : EqDecision DiffType.
Proof. solve_decision. Defined.

(** Modelled from the spec: [structs.FieldDiff], a changed primitive field
    with its string-encoded old and new values. *)
Record FieldDiff : Set := mkFieldDiff {
  fdName : string;
  fdOld : string;
  fdNew : string;
  fdAnnotations : list string
}.

(** Modelled from the spec: [structs.ObjectDiff]; only its [Name] is read
    by the annotation code, the nested content is not interpreted. *)
Record ObjectDiff : Set := mkObjectDiff {
  odName : string
}.

(** Modelled from the spec: [structs.TaskDiff]. *)
Record TaskDiff : Set := mkTaskDiff {
  tdType : DiffType;
  tdFields : list FieldDiff;
  tdObjects : list ObjectDiff;
  tdAnnotations : list string
}.

(** Modelled from the spec: [structs.DesiredUpdates], the six [uint64]
    counts the scheduler computes for one task group. *)
Record DesiredUpdates : Set := mkDesiredUpdates {
  Ignore : N;
  Place : N;
  Migrate : N;
  Stop : N;
  InPlaceUpdate : N;
  DestructiveUpdate : N
}.

(** Modelled from the spec: [structs.TaskGroupDiff].  [tgUpdates] is the Go
    field [Updates map[string]uint64]: [None] is the nil map. *)
Record TaskGroupDiff : Type := mkTaskGroupDiff {
  tgType : DiffType;
  tgName : string;
  tgFields : list FieldDiff;
  tgTasks : list TaskDiff;
  tgUpdates : option (gmap string N);
  tgAnnotations : list string
}.

(** Modelled from the spec: [structs.JobDiff]. *)
Record JobDiff : Type := mkJobDiff {
  jdType : DiffType;
  jdTaskGroups : list TaskGroupDiff
}.

(** Modelled from the spec: [structs.PlanAnnotations]. *)
Record PlanAnnotations : Type := mkPlanAnnotations {
  DesiredTGUpdates : gmap string DesiredUpdates
}.

(** ** Constants of annotate.go *)

Definition AnnotationForcesCreate : string := "forces create".
Definition AnnotationForcesDestroy : string := "forces destroy".
Definition AnnotationForcesInplaceUpdate : string := "forces in-place update".
Definition AnnotationForcesDestructiveUpdate : string :=
  "forces create/destroy update".

Definition UpdateTypeIgnore : string := "ignore".
Definition UpdateTypeCreate : string := "create".
Definition UpdateTypeDestroy : string := "destroy".
Definition UpdateTypeMigrate : string := "migrate".
Definition UpdateTypeInplaceUpdate : string := "in-place update".
Definition UpdateTypeDestructiveUpdate : string := "create/destroy update".

(** ** strconv.Atoi

    [strconv] belongs to the Go standard library, not to this repository;
    it is embedded here after its sources, for base 10 and a 64-bit [int]:
    [ParseUint] reads decimal digits into a [uint64] and reports overflow,
    [ParseInt] picks off one leading sign and checks the signed range,
    [Atoi] is [ParseInt] in base 10 with the error renamed.  The lemma
    [Atoi_iff_signedDecimal] below states what the embedding accepts. *)
Module strconv.

Inductive ErrKind : Set := ErrSyntax | ErrRange.

Record NumError : Set := mkNumError {
  Func : string;
  Num : string;
  Err : ErrKind
}.

Definition maxUint64 : Z := 2 ^ 64 - 1.

(** [d = c - '0'] for a byte in ['0'..'9']; any other byte is a syntax
    error in base 10. *)
Definition digit (c : ascii) : option Z :=
  let b := Z.of_N (N_of_ascii c) in
  if (48 <=? b)%Z && (b <=? 57)%Z then Some (b - 48)%Z else None.

(** The digit loop of [ParseUint], [n] being the value read so far. *)
Fixpoint ParseUint_loop (s : string) (n : Z) : Z + ErrKind :=
  match s with
  | EmptyString => inl n
  | String c s' =>
      match digit c with
      | None => inr ErrSyntax
      | Some d =>
          if (maxUint64 / 10 + 1 <=? n)%Z then inr ErrRange
          else
            let n1 := (n * 10 + d)%Z in
            if (maxUint64 <? n1)%Z then inr ErrRange
            else ParseUint_loop s' n1
      end
  end.

Definition ParseUint (s : string) : Z + ErrKind :=
  match s with
  | EmptyString => inr ErrSyntax
  | _ => ParseUint_loop s 0
  end.

Definition ParseInt (s : string) : Z + ErrKind :=
  match s with
  | EmptyString => inr ErrSyntax
  | String c s' =>
      let '(neg, s1) :=
        if Ascii.eqb c "+"%char then (false, s')
        else if Ascii.eqb c "-"%char then (true, s')
        else (false, s) in
      match ParseUint s1 with
      | inr ErrSyntax => inr ErrSyntax
      | r =>
          let un := match r with inl v => v | inr _ => maxUint64 end in
          let cutoff := (2 ^ 63)%Z in
          if negb neg && (cutoff <=? un)%Z then inr ErrRange
          else if neg && (cutoff <? un)%Z then inr ErrRange
          else inl (if neg then (- un)%Z else un)
      end
  end.

Definition Atoi (s : string) : Z + NumError :=
  match ParseInt s with
  | inl v => inl v
  | inr k => inr (mkNumError "Atoi" s k)
  end.

End strconv.

(** The Go [error] values this file can return all come from [Atoi]. *)
Abbreviation error := strconv.NumError.

(** ** annotateTask *)

(** Appending to [diff.Annotations] of a task diff. *)
Definition appendTaskAnnotation (diff : TaskDiff) (a : string) : TaskDiff :=
  mkTaskDiff (tdType diff) (tdFields diff) (tdObjects diff)
             (tdAnnotations diff ++ [a]).

(** The [case "LogConfig", "Service", "Constraint"] of the switch. *)
Definition inplaceObject (name : string) : bool :=
  String.eqb name "LogConfig" || String.eqb name "Service"
  || String.eqb name "Constraint".

(** The loop over [diff.Objects]: an allow-listed name continues with the
    next object; any other name sets [destructive], and the [break] that
    follows leaves the switch only, so the loop goes on. *)
Fixpoint scanObjects (objects : list ObjectDiff) (destructive : bool) : bool :=
  match objects with
  | [] => destructive
  | oDiff :: rest =>
      if inplaceObject (odName oDiff) then scanObjects rest destructive
      else scanObjects rest true
  end.

(** The value of [destructive] when the final [if] of [annotateTask] is
    reached. *)
Definition destructiveVerdict (diff : TaskDiff) : bool :=
  let destructive := false in
  let destructive :=
    if decide (length (tdFields diff) ≠ 0) then true else destructive in
  scanObjects (tdObjects diff) destructive.

Definition annotateTask (diff : TaskDiff) : TaskDiff :=
  if decide (tdType diff ≠ DiffTypeEdited) then diff
  else if destructiveVerdict diff
       then appendTaskAnnotation diff AnnotationForcesDestructiveUpdate
       else appendTaskAnnotation diff AnnotationForcesInplaceUpdate.

(** ** annotateCountChange *)

(** The scan for [countDiff]: the position and the value of the first field
    diff named "Count" ([None] when the pointer stays nil). *)
Fixpoint findCount (fields : list FieldDiff) : option (nat * FieldDiff) :=
  match fields with
  | [] => None
  | f :: rest =>
      if String.eqb (fdName f) "Count" then Some (0, f)
      else prod_map S id <$> findCount rest
  end.

(** Appending to [countDiff.Annotations]. *)
Definition appendFieldAnnotation (f : FieldDiff) (a : string) : FieldDiff :=
  mkFieldDiff (fdName f) (fdOld f) (fdNew f) (fdAnnotations f ++ [a]).

(** The task group after the field diff at position [i] has been replaced
    (the effect of writing through [countDiff]). *)
Definition setField (diff : TaskGroupDiff) (i : nat) (f : FieldDiff)
  : TaskGroupDiff :=
  mkTaskGroupDiff (tgType diff) (tgName diff) (<[i := f]> (tgFields diff))
                  (tgTasks diff) (tgUpdates diff) (tgAnnotations diff).

Definition annotateCountChange (diff : TaskGroupDiff)
  : TaskGroupDiff * option error :=
  if decide (tgType diff ≠ DiffTypeEdited) then (diff, None)
  else
    match findCount (tgFields diff) with
    | None => (diff, None)
    | Some (i, countDiff) =>
        match strconv.Atoi (fdOld countDiff) with
        | inr err => (diff, Some err)
        | inl oldV =>
            match strconv.Atoi (fdNew countDiff) with
            | inr err => (diff, Some err)
            | inl newV =>
                if (oldV <? newV)%Z then
                  (setField diff i
                     (appendFieldAnnotation countDiff AnnotationForcesCreate),
                   None)
                else if (newV <? oldV)%Z then
                  (setField diff i
                     (appendFieldAnnotation countDiff AnnotationForcesDestroy),
                   None)
                else (diff, None)
            end
        end
    end.

(** ** annotateTaskGroup *)

(** The six guarded writes into [diff.Updates], in source order. *)
Definition writeUpdates (tg : DesiredUpdates) (updates : gmap string N)
  : gmap string N :=
  let updates :=
    if decide (Ignore tg ≠ 0%N)
    then <[UpdateTypeIgnore := Ignore tg]> updates else updates in
  let updates :=
    if decide (Place tg ≠ 0%N)
    then <[UpdateTypeCreate := Place tg]> updates else updates in
  let updates :=
    if decide (Migrate tg ≠ 0%N)
    then <[UpdateTypeMigrate := Migrate tg]> updates else updates in
  let updates :=
    if decide (Stop tg ≠ 0%N)
    then <[UpdateTypeDestroy := Stop tg]> updates else updates in
  let updates :=
    if decide (InPlaceUpdate tg ≠ 0%N)
    then <[UpdateTypeInplaceUpdate := InPlaceUpdate tg]> updates
    else updates in
  if decide (DestructiveUpdate tg ≠ 0%N)
  then <[UpdateTypeDestructiveUpdate := DestructiveUpdate tg]> updates
  else updates.

Definition setUpdates (diff : TaskGroupDiff) (u : option (gmap string N))
  : TaskGroupDiff :=
  mkTaskGroupDiff (tgType diff) (tgName diff) (tgFields diff) (tgTasks diff)
                  u (tgAnnotations diff).

Definition setTasks (diff : TaskGroupDiff) (tasks : list TaskDiff)
  : TaskGroupDiff :=
  mkTaskGroupDiff (tgType diff) (tgName diff) (tgFields diff) tasks
                  (tgUpdates diff) (tgAnnotations diff).

(** "Annotate the updates": the block guarded by [annotations != nil]. *)
Definition annotateUpdates (diff : TaskGroupDiff)
    (annotations : option PlanAnnotations) : TaskGroupDiff :=
  match annotations with
  | None => diff
  | Some a =>
      match DesiredTGUpdates a !! tgName diff with
      | None => diff
      | Some tg =>
          let updates :=
            match tgUpdates diff with
            | None => ∅          (* make(map[string]uint64, 6) *)
            | Some m => m
            end in
          setUpdates diff (Some (writeUpdates tg updates))
      end
  end.

Definition annotateTaskGroup (diff : TaskGroupDiff)
    (annotations : option PlanAnnotations) : TaskGroupDiff * option error :=
  if decide (tgType diff ≠ DiffTypeEdited) then (diff, None)
  else
    let diff := annotateUpdates diff annotations in
    match annotateCountChange diff with
    | (diff, Some err) => (diff, Some err)
    | (diff, None) =>
        let taskDiffs := tgTasks diff in
        if decide (length taskDiffs = 0) then (diff, None)
        else (setTasks diff (annotateTask <$> taskDiffs), None)
    end.

(** ** Annotate *)

(** The loop over [tgDiffs]: it stops at the first error, leaving the
    remaining task groups as they were. *)
Fixpoint annotateTaskGroups (tgDiffs : list TaskGroupDiff)
    (annotations : option PlanAnnotations)
  : list TaskGroupDiff * option error :=
  match tgDiffs with
  | [] => ([], None)
  | tgDiff :: rest =>
      match annotateTaskGroup tgDiff annotations with
      | (tgDiff', Some err) => (tgDiff' :: rest, Some err)
      | (tgDiff', None) =>
          let '(rest', r) := annotateTaskGroups rest annotations in
          (tgDiff' :: rest', r)
      end
  end.

Definition Annotate (diff : JobDiff) (annotations : option PlanAnnotations)
  : JobDiff * option error :=
  if decide (jdType diff ≠ DiffTypeEdited) then (diff, None)
  else
    let tgDiffs := jdTaskGroups diff in
    if decide (length tgDiffs = 0) then (diff, None)
    else
      let '(tgDiffs', r) := annotateTaskGroups tgDiffs annotations in
      (mkJobDiff (jdType diff) tgDiffs', r).

(** ** Vocabulary of the specification *)

(** The allow-list of sub-diff kinds that can be updated in place. *)
Definition allowList : list string := ["LogConfig"; "Service"; "Constraint"].

(** "The task's Fields sequence is nonempty or some entry of Objects has a
    Name outside the allow-list". *)
Definition requiresDestructive (diff : TaskDiff) : Prop :=
  tdFields diff ≠ [] ∨ ∃ o, o ∈ tdObjects diff ∧ odName o ∉ allowList.

(** "Exactly one of the two labels is present" in a sequence of
    annotations. *)
Definition exactlyOneLabel (anns : list string) : Prop :=
  (AnnotationForcesDestructiveUpdate ∈ anns
   ∧ AnnotationForcesInplaceUpdate ∉ anns)
  ∨ (AnnotationForcesInplaceUpdate ∈ anns
     ∧ AnnotationForcesDestructiveUpdate ∉ anns).

(** The same task diff with its [Objects] sequence replaced. *)
Definition setObjects (diff : TaskDiff) (objects : list ObjectDiff)
  : TaskDiff :=
  mkTaskDiff (tdType diff) (tdFields diff) objects (tdAnnotations diff).

(** An edited task that already carries the in-place label and has one
    changed primitive field. *)
Definition relabelledTask : TaskDiff :=
  mkTaskDiff DiffTypeEdited [mkFieldDiff "Driver" "docker" "exec" []] []
             [AnnotationForcesInplaceUpdate].


(** [fields !! i] is the first field diff named "Count". *)
Definition firstCount (fields : list FieldDiff) (i : nat) (f : FieldDiff)
  : Prop :=
  fields !! i = Some f
  ∧ fdName f = "Count"
  ∧ ∀ j g, j < i → fields !! j = Some g → fdName g ≠ "Count".

(** The string parses as a base-10 integer. *)
Definition parses (s : string) : Prop := ∃ v, strconv.Atoi s = inl v.

(** "A task group diff with Type == Edited has a first Fields entry named
    Count whose Old or New value does not parse as a base-10 integer". *)
Definition malformedCount (tg : TaskGroupDiff) : Prop :=
  tgType tg = DiffTypeEdited
  ∧ ∃ i f, firstCount (tgFields tg) i f
           ∧ (¬ parses (fdOld f) ∨ ¬ parses (fdNew f)).

(** The value of a sequence of decimal digits read after [acc]; [None] if
    some byte is not a digit. *)
Fixpoint decimalDigits (s : string) (acc : Z) : option Z :=
  match s with
  | EmptyString => Some acc
  | String c s' =>
      match strconv.digit c with
      | Some d => decimalDigits s' (acc * 10 + d)%Z
      | None => None
      end
  end.

(** Base-10 integer text with an optional sign, and its value: an optional
    '+' or '-', then one or more decimal digits (leading zeros allowed), the
    value lying in the range of a 64-bit [int]. *)
Definition signedDecimal (s : string) (v : Z) : Prop :=
  ∃ body u,
    body ≠ "" ∧ decimalDigits body 0 = Some u
    ∧ (((s = body ∨ s = String "+" body) ∧ v = u ∧ (u < 2 ^ 63)%Z)
       ∨ (s = String "-" body ∧ v = (- u)%Z ∧ (u ≤ 2 ^ 63)%Z)).

(** The entry of the plan annotations for a task group name, when the
    annotations are present and have one. *)
Definition desiredUpdates (annotations : option PlanAnnotations)
    (name : string) : option DesiredUpdates :=
  match annotations with
  | None => None
  | Some a => DesiredTGUpdates a !! name
  end.

(** The six fixed keys of Updates, each with the count it is written
    from. *)
Definition updateTable (tg : DesiredUpdates) : list (string * N) :=
  [("ignore", Ignore tg);
   ("create", Place tg);
   ("migrate", Migrate tg);
   ("destroy", Stop tg);
   ("in-place update", InPlaceUpdate tg);
   ("create/destroy update", DestructiveUpdate tg)].

(** One guarded write [if count != 0 { updates[key] = count }]. *)
Definition guardedWrite (key : string) (count : N) (updates : gmap string N)
  : gmap string N :=
  if decide (count ≠ 0%N) then <[key := count]> updates else updates.

(** A plan that places two allocations of "web" and stops one. *)
Definition webPlan : PlanAnnotations :=
  mkPlanAnnotations {[ "web" := mkDesiredUpdates 0 2 0 1 0 0 ]}.

(** An edited task group "web" whose Updates already hold a "migrate"
    count. *)
Definition staleGroup : TaskGroupDiff :=
  mkTaskGroupDiff DiffTypeEdited "web" [] [] (Some {[ "migrate" := 9%N ]}) [].

(** A newly submitted job (Type Added) holding an edited task group whose
    count changed from "abc" to "3". *)
Definition submittedJob : JobDiff :=
  mkJobDiff DiffTypeAdded
    [mkTaskGroupDiff DiffTypeEdited "web" [mkFieldDiff "Count" "abc" "3" []]
                     [] None []].

(** An edited task group "web" with the given count change and no tasks,
    and the edited job of which it is the only task group. *)
Definition countGroup (old new : string) (anns : list string)
  : TaskGroupDiff :=
  mkTaskGroupDiff DiffTypeEdited "web" [mkFieldDiff "Count" old new anns]
                  [] None [].

Definition countJob (old new : string) (anns : list string) : JobDiff :=
  mkJobDiff DiffTypeEdited [countGroup old new anns].

(** An edited job with a deleted task group holding an edited task, and an
    edited task group holding an added task. *)
Definition mixedJob : JobDiff :=
  mkJobDiff DiffTypeEdited
    [mkTaskGroupDiff DiffTypeDeleted "cache"
       [mkFieldDiff "Count" "2" "" []]
       [mkTaskDiff DiffTypeEdited [] [] []] None [];
     mkTaskGroupDiff DiffTypeEdited "web"
       [mkFieldDiff "Count" "3" "5" []]
       [mkTaskDiff DiffTypeAdded [mkFieldDiff "Driver" "" "docker" []] [] []]
       None []].

(** An edited job with three edited task groups: "api" scales from 3 to 5
    and has one task with a changed service, "web" has the malformed count
    "abc", "db" scales from 5 to 3. *)
Definition partialJob : JobDiff :=
  mkJobDiff DiffTypeEdited
    [mkTaskGroupDiff DiffTypeEdited "api"
       [mkFieldDiff "Count" "3" "5" []]
       [mkTaskDiff DiffTypeEdited [] [mkObjectDiff "Service"] []] None [];
     mkTaskGroupDiff DiffTypeEdited "web"
       [mkFieldDiff "Count" "abc" "3" []]
       [mkTaskDiff DiffTypeEdited [] [mkObjectDiff "Service"] []] None [];
     mkTaskGroupDiff DiffTypeEdited "db"
       [mkFieldDiff "Count" "5" "3" []] [] None []].

(** The plan for [partialJob]: two placements and one stop for "web". *)
Definition partialPlan : PlanAnnotations :=
  mkPlanAnnotations {[ "web" := mkDesiredUpdates 0 2 0 1 0 0 ]}.

(** ** Vocabulary of the further properties *)

(** A field diff, a task diff with [added] appended to its annotations and
    nothing else changed. *)
Definition extendField (f : FieldDiff) (added : list string) : FieldDiff :=
  mkFieldDiff (fdName f) (fdOld f) (fdNew f) (fdAnnotations f ++ added).

Definition extendTask (t : TaskDiff) (added : list string) : TaskDiff :=
  mkTaskDiff (tdType t) (tdFields t) (tdObjects t) (tdAnnotations t ++ added).

(** The label [annotateTask] appends to an edited task diff. *)
Definition taskLabel (diff : TaskDiff) : string :=
  if destructiveVerdict diff then AnnotationForcesDestructiveUpdate
  else AnnotationForcesInplaceUpdate.

(** The error of the first task group, in order, whose count does not
    parse. *)
Fixpoint firstCountError (tgDiffs : list TaskGroupDiff) : option error :=
  match tgDiffs with
  | [] => None
  | tg :: rest =>
      match snd (annotateCountChange tg) with
      | Some err => Some err
      | None => firstCountError rest
      end
  end.

(** The objects whose name is outside the allow-list. *)
Definition unsafeObjects (objects : list ObjectDiff) : list ObjectDiff :=
  List.filter (λ o, negb (inplaceObject (odName o))) objects.

(** An edited group "web" with two fields named "Count" and two tasks, one
    edited and one added. *)
Definition twoCountsGroup : TaskGroupDiff :=
  mkTaskGroupDiff DiffTypeEdited "web"
    [mkFieldDiff "Meta" "a" "b" [];
     mkFieldDiff "Count" "1" "4" [];
     mkFieldDiff "Count" "9" "2" []]
    [mkTaskDiff DiffTypeEdited [] [mkObjectDiff "Template"] [];
     mkTaskDiff DiffTypeAdded [] [] []]
    (Some {[ "ignore" := 7%N ]}) ["kept"].

Definition twoCountsPlan : PlanAnnotations :=
  mkPlanAnnotations {[ "web" := mkDesiredUpdates 0 2 0 1 0 0;
                       "db" := mkDesiredUpdates 1 0 0 0 0 0 ]}.

(** Two field diffs that differ at most in their annotations. *)
Definition sameCount (f g : FieldDiff) : Prop :=
  fdName f = fdName g ∧ fdOld f = fdOld g ∧ fdNew f = fdNew g.
(** * Properties *)

(** ** The object scan *)

Lemma inplaceObject_allowList name :
  inplaceObject name = true ↔ name ∈ allowList.
Proof.
  unfold inplaceObject, allowList.
  rewrite !orb_true_iff, !String.eqb_eq, !elem_of_cons, elem_of_nil.
  tauto.
Qed.

Lemma inplaceObject_false name :
  inplaceObject name = false ↔ name ∉ allowList.
Proof.
  rewrite <- inplaceObject_allowList.
  destruct (inplaceObject name); split; congruence.
Qed.

(** The scan is a disjunction: the incoming flag or some object outside the
    allow-list. *)
Lemma scanObjects_existsb objects destructive :
  scanObjects objects destructive
  = destructive || existsb (λ o, negb (inplaceObject (odName o))) objects.
Proof.
  revert destructive.
  induction objects as [|o rest IH]; intros b; simpl.
  - by rewrite orb_false_r.
  - destruct (inplaceObject (odName o)); simpl; rewrite IH.
    + done.
    + by rewrite orb_true_r.
Qed.

Lemma existsb_unsafe_iff objects :
  existsb (λ o, negb (inplaceObject (odName o))) objects = true
  ↔ ∃ o, o ∈ objects ∧ odName o ∉ allowList.
Proof.
  rewrite existsb_exists. split.
  - intros (o & Hin & Hneg). exists o. split.
    + by apply list_elem_of_In.
    + apply inplaceObject_false. by apply negb_true_iff.
  - intros (o & Hin & Hout). exists o. split.
    + by apply list_elem_of_In.
    + apply negb_true_iff. by apply inplaceObject_false.
Qed.

Lemma destructiveVerdict_iff diff :
  destructiveVerdict diff = true ↔ requiresDestructive diff.
Proof.
  unfold destructiveVerdict, requiresDestructive.
  rewrite scanObjects_existsb, orb_true_iff, existsb_unsafe_iff.
  destruct (tdFields diff) as [|f fs]; simpl.
  - split; intros [H|H]; try done; by right.
  - split; intros _; by left.
Qed.

Lemma existsb_Permutation {A} (p : A → bool) (l l' : list A) :
  l ≡ₚ l' → existsb p l = existsb p l'.
Proof.
  induction 1 as [|x l l' _ IH|x y l|l l' l'' _ IH1 _ IH2]; simpl.
  - done.
  - by rewrite IH.
  - destruct (p x), (p y); done.
  - congruence.
Qed.

Lemma annotateTask_edited diff :
  tdType diff = DiffTypeEdited →
  annotateTask diff
  = appendTaskAnnotation diff
      (if destructiveVerdict diff then AnnotationForcesDestructiveUpdate
       else AnnotationForcesInplaceUpdate).
Proof.
  intros Hty. unfold annotateTask.
  destruct (decide (tdType diff ≠ DiffTypeEdited)) as [Hne|_]; [done|].
  by destruct (destructiveVerdict diff).
Qed.

Lemma annotateTask_not_edited diff :
  tdType diff ≠ DiffTypeEdited → annotateTask diff = diff.
Proof.
  intros Hty. unfold annotateTask.
  by destruct (decide (tdType diff ≠ DiffTypeEdited)).
Qed.

Lemma labels_distinct :
  AnnotationForcesDestructiveUpdate ≠ AnnotationForcesInplaceUpdate.
Proof. discriminate. Qed.

(** ** annotateTask: classification of an edited task *)

(** C1, as amended.  For every task diff with [Type == Edited],
    [annotateTask] appends exactly one annotation and changes nothing else:
    "forces create/destroy update" if the task's Fields sequence is nonempty
    or some entry of Objects has a Name outside the allow-list, and "forces
    in-place update" otherwise.  Exactly one of the two labels is present on
    the task after the call provided the label the call does not append was
    not among the task's annotations before it: the call only appends, it
    never removes or replaces an earlier annotation. *)
Theorem annotateTask_appends_one_label (diff : TaskDiff) :
  tdType diff = DiffTypeEdited →
  ∃ label,
    annotateTask diff
    = mkTaskDiff (tdType diff) (tdFields diff) (tdObjects diff)
                 (tdAnnotations diff ++ [label])
    ∧ (requiresDestructive diff → label = AnnotationForcesDestructiveUpdate)
    ∧ (¬ requiresDestructive diff → label = AnnotationForcesInplaceUpdate)
    ∧ (∀ other,
         other ∈ [AnnotationForcesDestructiveUpdate;
                  AnnotationForcesInplaceUpdate] →
         other ≠ label →
         other ∉ tdAnnotations diff →
         exactlyOneLabel (tdAnnotations (annotateTask diff))).
Proof.
  intros Hty. rewrite (annotateTask_edited diff Hty).
  pose proof (destructiveVerdict_iff diff) as Hv.
  destruct (destructiveVerdict diff) eqn:Hd.
  - exists AnnotationForcesDestructiveUpdate.
    split; [done|]. split; [done|]. split.
    + intros Hn. exfalso. apply Hn. by apply Hv.
    + intros other Hin Hne Hout. left. simpl.
      apply elem_of_cons in Hin as [->|Hin]; [done|].
      apply list_elem_of_singleton in Hin as ->.
      split.
      * apply elem_of_app. right. by apply list_elem_of_singleton.
      * rewrite elem_of_app, list_elem_of_singleton. intros [?|?]; done.
  - exists AnnotationForcesInplaceUpdate.
    split; [done|]. split; [|split; [done|]].
    + intros Hreq. apply Hv in Hreq. discriminate.
    + intros other Hin Hne Hout. right. simpl.
      apply elem_of_cons in Hin as [->|Hin].
      * split.
        -- apply elem_of_app. right. by apply list_elem_of_singleton.
        -- rewrite elem_of_app, list_elem_of_singleton. intros [?|?]; done.
      * apply list_elem_of_singleton in Hin as ->. done.
Qed.

Lemma annotateTask_appends_one_label_witness :
  ∃ label,
    annotateTask
      (mkTaskDiff DiffTypeEdited []
                  [mkObjectDiff "Service"; mkObjectDiff "Template"] [])
    = mkTaskDiff DiffTypeEdited []
                 [mkObjectDiff "Service"; mkObjectDiff "Template"]
                 ([] ++ [label])
    ∧ (requiresDestructive
         (mkTaskDiff DiffTypeEdited []
                     [mkObjectDiff "Service"; mkObjectDiff "Template"] []) →
       label = AnnotationForcesDestructiveUpdate)
    ∧ (¬ requiresDestructive
           (mkTaskDiff DiffTypeEdited []
                       [mkObjectDiff "Service"; mkObjectDiff "Template"] []) →
       label = AnnotationForcesInplaceUpdate)
    ∧ (∀ other,
         other ∈ [AnnotationForcesDestructiveUpdate;
                  AnnotationForcesInplaceUpdate] →
         other ≠ label →
         other ∉ [] →
         exactlyOneLabel
           (tdAnnotations
              (annotateTask
                 (mkTaskDiff DiffTypeEdited []
                    [mkObjectDiff "Service"; mkObjectDiff "Template"] [])))).
Proof.
  apply (annotateTask_appends_one_label
           (mkTaskDiff DiffTypeEdited []
              [mkObjectDiff "Service"; mkObjectDiff "Template"] [])).
  reflexivity.
Defined.

(** C1, as stated, fails on a task that already carries the other label:
    the edited task [relabelledTask] has a changed field, so the call
    appends "forces create/destroy update" after the "forces in-place
    update" it finds, and both labels are present after the call. *)
Lemma annotateTask_relabelledTask_both_labels :
  tdType relabelledTask = DiffTypeEdited
  ∧ tdAnnotations (annotateTask relabelledTask)
    = [AnnotationForcesInplaceUpdate; AnnotationForcesDestructiveUpdate]
  ∧ ¬ exactlyOneLabel (tdAnnotations (annotateTask relabelledTask)).
Proof.
  split; [reflexivity|]. split; [reflexivity|].
  change (tdAnnotations (annotateTask relabelledTask))
    with [AnnotationForcesInplaceUpdate; AnnotationForcesDestructiveUpdate].
  intros [[_ Hout]|[_ Hout]]; apply Hout.
  - apply elem_of_cons. by left.
  - apply elem_of_cons. right. apply elem_of_cons. by left.
Qed.

(** C10.  For every task diff with [Type == Edited] whose Fields and
    Objects sequences are both empty, [annotateTask] appends exactly one
    annotation, "forces in-place update", and changes nothing else. *)
Theorem annotateTask_no_differences_in_place (diff : TaskDiff) :
  tdType diff = DiffTypeEdited →
  tdFields diff = [] →
  tdObjects diff = [] →
  annotateTask diff
  = mkTaskDiff DiffTypeEdited [] []
               (tdAnnotations diff ++ [AnnotationForcesInplaceUpdate]).
Proof.
  intros Hty Hf Ho. rewrite (annotateTask_edited diff Hty).
  unfold destructiveVerdict, appendTaskAnnotation.
  rewrite Hty, Hf, Ho. reflexivity.
Qed.

Lemma annotateTask_no_differences_in_place_witness :
  annotateTask (mkTaskDiff DiffTypeEdited [] [] [])
  = mkTaskDiff DiffTypeEdited [] [] ([] ++ [AnnotationForcesInplaceUpdate]).
Proof.
  apply (annotateTask_no_differences_in_place
           (mkTaskDiff DiffTypeEdited [] [] []));
    reflexivity.
Defined.

(** C5.  The verdict of [annotateTask] is the logical OR of "Fields is
    nonempty" and of every object's "name outside the allow-list": one
    object outside the allow-list, wherever it stands in Objects, makes the
    verdict destructive, and for every task diff a permutation of the
    Objects sequence changes neither the verdict nor the appended
    annotation. *)
Theorem destructive_verdict_order_independent
    (diff : TaskDiff) (objects' : list ObjectDiff) :
  tdObjects diff ≡ₚ objects' →
  destructiveVerdict diff
  = bool_decide (tdFields diff ≠ [])
    || existsb (λ o, negb (inplaceObject (odName o))) (tdObjects diff)
  ∧ (∀ before o after,
       tdObjects diff = before ++ o :: after →
       odName o ∉ allowList →
       destructiveVerdict diff = true)
  ∧ destructiveVerdict (setObjects diff objects') = destructiveVerdict diff
  ∧ annotateTask (setObjects diff objects')
    = setObjects (annotateTask diff) objects'.
Proof.
  intros Hperm.
  assert (Hor : ∀ d, destructiveVerdict d
    = bool_decide (tdFields d ≠ [])
      || existsb (λ o, negb (inplaceObject (odName o))) (tdObjects d)).
  { intros d. unfold destructiveVerdict. rewrite scanObjects_existsb.
    by destruct (tdFields d). }
  assert (Hsame :
    destructiveVerdict (setObjects diff objects') = destructiveVerdict diff).
  { rewrite !Hor. simpl. f_equal. symmetry. by apply existsb_Permutation. }
  split; [apply Hor|]. split; [|split; [exact Hsame|]].
  - intros before o after Hobjs Hout.
    apply destructiveVerdict_iff. right. exists o. split; [|done].
    rewrite Hobjs. apply elem_of_app. right. apply elem_of_cons. by left.
  - unfold annotateTask. rewrite Hsame. simpl.
    destruct (decide (tdType diff ≠ DiffTypeEdited)); [done|].
    by destruct (destructiveVerdict diff).
Qed.

Lemma destructive_verdict_order_independent_witness :
  annotateTask
    (setObjects
       (mkTaskDiff DiffTypeEdited []
                   [mkObjectDiff "Template"; mkObjectDiff "Service"] [])
       [mkObjectDiff "Service"; mkObjectDiff "Template"])
  = setObjects
      (annotateTask
         (mkTaskDiff DiffTypeEdited []
                     [mkObjectDiff "Template"; mkObjectDiff "Service"] []))
      [mkObjectDiff "Service"; mkObjectDiff "Template"].
Proof.
  apply (destructive_verdict_order_independent
           (mkTaskDiff DiffTypeEdited []
                       [mkObjectDiff "Template"; mkObjectDiff "Service"] [])
           [mkObjectDiff "Service"; mkObjectDiff "Template"]).
  simpl. apply perm_swap.
Defined.

(** ** strconv.Atoi on signed decimal text *)

Lemma digit_range c d : strconv.digit c = Some d → (0 ≤ d ≤ 9)%Z.
Proof.
  unfold strconv.digit.
  destruct (_ && _) eqn:Hb; [|done].
  apply andb_true_iff in Hb as [H1 H2].
  apply Z.leb_le in H1, H2. intros [= <-]. lia.
Qed.

Lemma decimalDigits_ge s : ∀ acc v,
  (0 ≤ acc)%Z → decimalDigits s acc = Some v → (acc ≤ v)%Z.
Proof.
  induction s as [|c s IH]; intros acc v Hacc; simpl.
  - intros [= <-]. lia.
  - destruct (strconv.digit c) as [d|] eqn:Hd; [|done].
    intros Hv. apply digit_range in Hd.
    apply IH in Hv; lia.
Qed.

(** The digit loop of [ParseUint] computes the decimal value whenever that
    value fits a [uint64]. *)
Lemma ParseUint_loop_decimal s : ∀ n v,
  (0 ≤ n)%Z →
  decimalDigits s n = Some v →
  (v ≤ strconv.maxUint64)%Z →
  strconv.ParseUint_loop s n = inl v.
Proof.
  induction s as [|c s IH]; intros n v Hn; simpl.
  - by intros [= <-].
  - destruct (strconv.digit c) as [d|] eqn:Hd; [|done].
    intros Hv Hmax. pose proof (digit_range _ _ Hd) as Hr.
    assert (n * 10 + d ≤ v)%Z as Hge
      by (apply (decimalDigits_ge s); [lia|done]).
    assert (Hcut : (strconv.maxUint64 / 10 + 1 <=? n)%Z = false).
    { apply Z.leb_gt.
      assert (n ≤ strconv.maxUint64 / 10)%Z; [|lia].
      apply Z.div_le_lower_bound; lia. }
    rewrite Hcut.
    assert (Hov : (strconv.maxUint64 <? n * 10 + d)%Z = false).
    { apply Z.ltb_ge. lia. }
    rewrite Hov. apply IH; [lia|done|done].
Qed.

Lemma ParseUint_decimal body u :
  body ≠ "" →
  decimalDigits body 0 = Some u →
  (u ≤ strconv.maxUint64)%Z →
  strconv.ParseUint body = inl u.
Proof.
  intros Hne Hu Hle. destruct body as [|c s]; [done|].
  unfold strconv.ParseUint. by apply ParseUint_loop_decimal; [lia|..].
Qed.

(** Conversely the digit loop returns nothing but the decimal value. *)
Lemma ParseUint_loop_inl s : ∀ n v,
  strconv.ParseUint_loop s n = inl v →
  decimalDigits s n = Some v ∧ (n ≤ strconv.maxUint64 → v ≤ strconv.maxUint64)%Z.
Proof.
  induction s as [|c s IH]; intros n v; simpl.
  - intros [= <-]. done.
  - destruct (strconv.digit c) as [d|]; [|done].
    destruct (strconv.maxUint64 / 10 + 1 <=? n)%Z; [done|].
    destruct (strconv.maxUint64 <? n * 10 + d)%Z eqn:Hov; [done|].
    apply Z.ltb_ge in Hov. intros Hloop.
    apply IH in Hloop as [Hdec Hmax]. split; [done|]. intros _. by apply Hmax.
Qed.

Lemma ParseUint_inl body u :
  strconv.ParseUint body = inl u →
  body ≠ "" ∧ decimalDigits body 0 = Some u ∧ (u ≤ strconv.maxUint64)%Z.
Proof.
  destruct body as [|c s]; [done|].
  unfold strconv.ParseUint. intros Hloop.
  apply ParseUint_loop_inl in Hloop as [Hdec Hmax].
  split; [done|]. split; [done|]. apply Hmax. unfold strconv.maxUint64. lia.
Qed.

Lemma decimalDigits_first_digit c s u :
  decimalDigits (String c s) 0 = Some u → is_Some (strconv.digit c).
Proof. simpl. destruct (strconv.digit c); [eauto|done]. Qed.

Lemma digit_not_sign c :
  is_Some (strconv.digit c) →
  Ascii.eqb c "+"%char = false ∧ Ascii.eqb c "-"%char = false.
Proof.
  intros [d Hd].
  split; apply Ascii.eqb_neq; intros ->; vm_compute in Hd; discriminate.
Qed.

(** [Atoi] accepts signed decimal text and returns its value. *)
Lemma Atoi_signedDecimal s v : signedDecimal s v → strconv.Atoi s = inl v.
Proof.
  intros (body & u & Hne & Hu & Hs).
  assert (0 ≤ u)%Z as Hpos by (by apply (decimalDigits_ge body 0 u)).
  assert (u ≤ strconv.maxUint64)%Z as Hmax.
  { unfold strconv.maxUint64. destruct Hs as [(_ & _ & ?)|(_ & _ & ?)]; lia. }
  pose proof (ParseUint_decimal body u Hne Hu Hmax) as HP.
  unfold strconv.Atoi, strconv.ParseInt.
  destruct Hs as [([->| ->] & -> & Hlt)|(-> & -> & Hle)].
  - destruct body as [|c b]; [done|].
    destruct (digit_not_sign c) as [-> ->];
      [by eapply decimalDigits_first_digit|].
    rewrite HP. simpl.
    by destruct (2 ^ 63 <=? u)%Z eqn:H1; [lia|].
  - simpl. rewrite HP. simpl.
    by destruct (2 ^ 63 <=? u)%Z eqn:H1; [lia|].
  - simpl. rewrite HP. simpl.
    by destruct (2 ^ 63 <? u)%Z eqn:H1; [lia|].
Qed.

(** Nothing else parses: a successful [Atoi] read signed decimal text. *)
Lemma Atoi_inl_signedDecimal s v : strconv.Atoi s = inl v → signedDecimal s v.
Proof.
  unfold strconv.Atoi.
  destruct (strconv.ParseInt s) as [w|k] eqn:HP; [|done].
  intros [= ->]. unfold strconv.ParseInt in HP.
  destruct s as [|c s']; [done|].
  assert (∀ (neg : bool) body,
            match strconv.ParseUint body with
            | inr strconv.ErrSyntax => inr strconv.ErrSyntax
            | r =>
                let un := match r with
                          | inl x => x
                          | inr _ => strconv.maxUint64
                          end in
                let cutoff := (2 ^ 63)%Z in
                if negb neg && (cutoff <=? un)%Z then inr strconv.ErrRange
                else if neg && (cutoff <? un)%Z then inr strconv.ErrRange
                else inl (if neg then (- un)%Z else un)
            end = inl v →
            ∃ u, body ≠ "" ∧ decimalDigits body 0 = Some u
                 ∧ if neg then v = (- u)%Z ∧ (u ≤ 2 ^ 63)%Z
                   else v = u ∧ (u < 2 ^ 63)%Z) as Hcore.
  { intros neg body.
    destruct (strconv.ParseUint body) as [u|[|]] eqn:HU; [|done|].
    - apply ParseUint_inl in HU as (Hne & Hdec & _).
      simpl. intros Hres. exists u. split; [done|]. split; [done|].
      destruct neg; simpl in Hres.
      + destruct (2 ^ 63 <? u)%Z eqn:H1; [done|].
        apply Z.ltb_ge in H1. by injection Hres as <-.
      + destruct (2 ^ 63 <=? u)%Z eqn:H1; [done|].
        apply Z.leb_gt in H1. by injection Hres as <-.
    - by destruct neg. }
  destruct (Ascii.eqb c "+") eqn:Hplus.
  - apply Ascii.eqb_eq in Hplus as ->.
    apply (Hcore false) in HP as (u & Hne & Hdec & -> & Hlt).
    exists s', u. split; [done|]. split; [done|]. left. by eauto.
  - destruct (Ascii.eqb c "-") eqn:Hminus.
    + apply Ascii.eqb_eq in Hminus as ->.
      apply (Hcore true) in HP as (u & Hne & Hdec & -> & Hle).
      exists s', u. split; [done|]. split; [done|]. right. by eauto.
    + apply (Hcore false) in HP as (u & Hne & Hdec & -> & Hlt).
      exists (String c s'), u. split; [done|]. split; [done|]. left. by eauto.
Qed.

Lemma Atoi_iff_signedDecimal s v :
  strconv.Atoi s = inl v ↔ signedDecimal s v.
Proof. split; [apply Atoi_inl_signedDecimal|apply Atoi_signedDecimal]. Qed.

(** ** annotateCountChange *)

Lemma findCount_firstCount fields : ∀ i f,
  findCount fields = Some (i, f) ↔ firstCount fields i f.
Proof.
  unfold firstCount.
  induction fields as [|g rest IH]; intros i f; simpl.
  - split; [done|]. by intros [? _].
  - destruct (String.eqb (fdName g) "Count") eqn:Hg.
    + apply String.eqb_eq in Hg. split.
      * intros [= <- <-]. split; [done|]. split; [done|]. lia.
      * intros (Hi & Hn & Hfirst). destruct i as [|i].
        -- simpl in Hi. by injection Hi as ->.
        -- exfalso. by apply (Hfirst 0 g); [lia|..].
    + apply String.eqb_neq in Hg.
      destruct (findCount rest) as [[k h]|]; simpl.
      * split.
        -- intros [= <- <-].
           destruct (proj1 (IH k h) eq_refl) as (Hk & Hn & Hfirst).
           split; [done|]. split; [done|].
           intros [|j] g' Hj; simpl; [by intros [= <-]|].
           apply Hfirst. lia.
        -- intros (Hi & Hn & Hfirst).
           destruct i as [|i]; [simpl in Hi; congruence|].
           simpl in Hi.
           assert (Some (k, h) = Some (i, f)) as [= -> ->]; [|done].
           apply IH. split; [done|]. split; [done|].
           intros j g' Hj Hg'. apply (Hfirst (S j) g'); [lia|done].
      * split; [done|].
        intros (Hi & Hn & Hfirst).
        destruct i as [|i]; [simpl in Hi; congruence|].
        simpl in Hi.
        assert (None = Some (i, f)) as Heq; [|done].
        apply IH. split; [done|]. split; [done|].
        intros j g' Hj Hg'. apply (Hfirst (S j) g'); [lia|done].
Qed.


Lemma annotateCountChange_not_edited diff :
  tgType diff ≠ DiffTypeEdited → annotateCountChange diff = (diff, None).
Proof.
  intros Hty. unfold annotateCountChange.
  by destruct (decide (tgType diff ≠ DiffTypeEdited)).
Qed.

Lemma annotateCountChange_no_count diff :
  findCount (tgFields diff) = None → annotateCountChange diff = (diff, None).
Proof.
  intros Hnone. unfold annotateCountChange. rewrite Hnone.
  by destruct (decide (tgType diff ≠ DiffTypeEdited)).
Qed.

(** The three outcomes once both values of the count field parse. *)
Lemma annotateCountChange_parsed diff i countDiff oldV newV :
  tgType diff = DiffTypeEdited →
  findCount (tgFields diff) = Some (i, countDiff) →
  strconv.Atoi (fdOld countDiff) = inl oldV →
  strconv.Atoi (fdNew countDiff) = inl newV →
  annotateCountChange diff
  = if (oldV <? newV)%Z then
      (setField diff i
         (appendFieldAnnotation countDiff AnnotationForcesCreate), None)
    else if (newV <? oldV)%Z then
      (setField diff i
         (appendFieldAnnotation countDiff AnnotationForcesDestroy), None)
    else (diff, None).
Proof.
  intros Hty Hfind Hold Hnew. unfold annotateCountChange.
  destruct (decide (tgType diff ≠ DiffTypeEdited)); [done|].
  by rewrite Hfind, Hold, Hnew.
Qed.

(** An error leaves the task group as it was and is exactly the case of a
    malformed count. *)
Lemma annotateCountChange_error diff e :
  snd (annotateCountChange diff) = Some e →
  fst (annotateCountChange diff) = diff ∧ malformedCount diff.
Proof.
  unfold annotateCountChange, malformedCount.
  destruct (decide (tgType diff ≠ DiffTypeEdited)) as [|Hty]; [done|].
  apply dec_stable in Hty.
  destruct (findCount (tgFields diff)) as [[i f]|] eqn:Hfind; [|done].
  apply findCount_firstCount in Hfind.
  destruct (strconv.Atoi (fdOld f)) as [oldV|eo] eqn:Hold.
  - destruct (strconv.Atoi (fdNew f)) as [newV|en] eqn:Hnew.
    + by destruct (oldV <? newV)%Z, (newV <? oldV)%Z.
    + simpl. intros _. split; [done|]. split; [done|].
      exists i, f. split; [done|]. right. intros [v Hv]. congruence.
  - simpl. intros _. split; [done|]. split; [done|].
    exists i, f. split; [done|]. left. intros [v Hv]. congruence.
Qed.

Lemma firstCount_unique fields i f j g :
  firstCount fields i f → firstCount fields j g → i = j ∧ f = g.
Proof.
  intros Hi Hj.
  apply findCount_firstCount in Hi. apply findCount_firstCount in Hj.
  split; congruence.
Qed.

Lemma annotateCountChange_malformed diff :
  malformedCount diff → is_Some (snd (annotateCountChange diff)).
Proof.
  intros (Hty & i & f & Hfirst & Hbad).
  apply findCount_firstCount in Hfirst.
  unfold annotateCountChange.
  destruct (decide (tgType diff ≠ DiffTypeEdited)); [done|].
  rewrite Hfirst.
  destruct (strconv.Atoi (fdOld f)) as [oldV|eo] eqn:Hold; [|by eexists].
  destruct (strconv.Atoi (fdNew f)) as [newV|en] eqn:Hnew; [|by eexists].
  exfalso. destruct Hbad as [Hbad|Hbad]; apply Hbad; by eexists.
Qed.

(** [annotateCountChange] only ever touches the Fields of the group. *)
Lemma annotateCountChange_frame diff :
  let diff' := fst (annotateCountChange diff) in
  tgType diff' = tgType diff ∧ tgName diff' = tgName diff
  ∧ tgTasks diff' = tgTasks diff ∧ tgUpdates diff' = tgUpdates diff
  ∧ tgAnnotations diff' = tgAnnotations diff.
Proof.
  unfold annotateCountChange.
  destruct (decide (tgType diff ≠ DiffTypeEdited)); [done|].
  destruct (findCount (tgFields diff)) as [[i f]|]; [|done].
  destruct (strconv.Atoi (fdOld f)) as [oldV|]; [|done].
  destruct (strconv.Atoi (fdNew f)) as [newV|]; [|done].
  by destruct (oldV <? newV)%Z, (newV <? oldV)%Z.
Qed.



(** ** annotateTaskGroup *)

Lemma annotateUpdates_frame diff annotations :
  let diff' := annotateUpdates diff annotations in
  tgType diff' = tgType diff ∧ tgName diff' = tgName diff
  ∧ tgFields diff' = tgFields diff ∧ tgTasks diff' = tgTasks diff
  ∧ tgAnnotations diff' = tgAnnotations diff.
Proof.
  unfold annotateUpdates. destruct annotations as [a|]; [|done].
  by destruct (DesiredTGUpdates a !! tgName diff).
Qed.

Lemma annotateUpdates_malformedCount diff annotations :
  malformedCount (annotateUpdates diff annotations) ↔ malformedCount diff.
Proof.
  unfold malformedCount.
  destruct (annotateUpdates_frame diff annotations)
    as (-> & _ & -> & _ & _).
  done.
Qed.

Lemma annotateTaskGroup_not_edited diff annotations :
  tgType diff ≠ DiffTypeEdited →
  annotateTaskGroup diff annotations = (diff, None).
Proof.
  intros Hty. unfold annotateTaskGroup.
  by destruct (decide (tgType diff ≠ DiffTypeEdited)).
Qed.

Lemma setTasks_same diff : setTasks diff (tgTasks diff) = diff.
Proof. by destruct diff. Qed.

(** The two ways an edited task group comes out of [annotateTaskGroup]:
    on a malformed count, with its Updates merged and nothing else done; on
    success, with the count field and every task annotated as well. *)
Lemma annotateTaskGroup_edited diff annotations :
  tgType diff = DiffTypeEdited →
  let merged := annotateUpdates diff annotations in
  match snd (annotateCountChange merged) with
  | Some err => annotateTaskGroup diff annotations = (merged, Some err)
  | None =>
      annotateTaskGroup diff annotations
      = (setTasks (fst (annotateCountChange merged))
                  (annotateTask <$> tgTasks diff), None)
  end.
Proof.
  intros Hty merged. unfold annotateTaskGroup.
  destruct (decide (tgType diff ≠ DiffTypeEdited)); [done|].
  fold merged.
  pose proof (annotateCountChange_frame merged) as (_ & _ & Htasks & _ & _).
  destruct (annotateUpdates_frame diff annotations) as (_ & _ & _ & Hmt & _).
  fold merged in Hmt.
  destruct (annotateCountChange merged) as [counted [err|]] eqn:Hcc;
    simpl in *.
  - pose proof (annotateCountChange_error merged err) as [Hsame _].
    { by rewrite Hcc. }
    rewrite Hcc in Hsame. simpl in Hsame. by subst counted.
  - rewrite Htasks, Hmt.
    destruct (decide (length (tgTasks diff) = 0)) as [Hlen|]; [|done].
    apply nil_length_inv in Hlen. rewrite Hlen. simpl.
    by rewrite <- Hlen, <- Hmt, <- Htasks, setTasks_same.
Qed.

Lemma annotateTaskGroup_error_iff diff annotations :
  is_Some (snd (annotateTaskGroup diff annotations)) ↔ malformedCount diff.
Proof.
  destruct (decide (tgType diff = DiffTypeEdited)) as [Hty|Hty].
  - pose proof (annotateTaskGroup_edited diff annotations Hty) as Hed.
    simpl in Hed. rewrite <- (annotateUpdates_malformedCount diff annotations).
    destruct (snd (annotateCountChange (annotateUpdates diff annotations)))
      as [err|] eqn:Hcc; rewrite Hed; simpl.
    + split; [|by eexists]. intros _.
      by apply (annotateCountChange_error _ err).
    + split; [by intros [? ?]|].
      intros Hbad. apply annotateCountChange_malformed in Hbad.
      rewrite Hcc in Hbad. by destruct Hbad.
  - rewrite annotateTaskGroup_not_edited by done. simpl.
    split; [by intros [? ?]|]. by intros [? _].
Qed.

Lemma annotateTaskGroup_error diff annotations e :
  snd (annotateTaskGroup diff annotations) = Some e →
  fst (annotateTaskGroup diff annotations) = annotateUpdates diff annotations.
Proof.
  destruct (decide (tgType diff = DiffTypeEdited)) as [Hty|Hty].
  - pose proof (annotateTaskGroup_edited diff annotations Hty) as Hed.
    simpl in Hed.
    destruct (snd (annotateCountChange (annotateUpdates diff annotations)));
      rewrite Hed; simpl; done.
  - by rewrite annotateTaskGroup_not_edited.
Qed.

(** [annotateTaskGroup] never touches the Updates after the merge. *)
Lemma annotateTaskGroup_updates diff annotations :
  tgType diff = DiffTypeEdited →
  tgUpdates (fst (annotateTaskGroup diff annotations))
  = tgUpdates (annotateUpdates diff annotations).
Proof.
  intros Hty.
  pose proof (annotateTaskGroup_edited diff annotations Hty) as Hed.
  simpl in Hed.
  pose proof (annotateCountChange_frame (annotateUpdates diff annotations))
    as (_ & _ & _ & Hup & _).
  destruct (snd (annotateCountChange (annotateUpdates diff annotations)));
    rewrite Hed; simpl; done.
Qed.

(** Every task of the group comes out either untouched or annotated. *)
Lemma annotateTaskGroup_tasks diff annotations :
  Forall2 (λ task task', task' = task ∨ task' = annotateTask task)
          (tgTasks diff) (tgTasks (fst (annotateTaskGroup diff annotations))).
Proof.
  destruct (decide (tgType diff = DiffTypeEdited)) as [Hty|Hty].
  - pose proof (annotateTaskGroup_edited diff annotations Hty) as Hed.
    simpl in Hed.
    destruct (annotateUpdates_frame diff annotations) as (_ & _ & _ & Hmt & _).
    destruct (snd (annotateCountChange (annotateUpdates diff annotations)));
      rewrite Hed; simpl.
    + rewrite Hmt. apply Forall2_same_length_lookup_2; [done|].
      intros i x y Hx Hy. left. congruence.
    + apply Forall2_fmap_r, Forall_Forall2_diag, Forall_forall.
      intros task _. by right.
  - rewrite annotateTaskGroup_not_edited by done. simpl.
    apply Forall_Forall2_diag, Forall_forall. intros task _. by left.
Qed.

(** ** The loop of Annotate *)

(** While no task group fails, the loop annotates every one of them. *)
Lemma annotateTaskGroups_success tgDiffs annotations :
  Forall (λ g, ¬ malformedCount g) tgDiffs →
  annotateTaskGroups tgDiffs annotations
  = ((λ g, fst (annotateTaskGroup g annotations)) <$> tgDiffs, None).
Proof.
  induction 1 as [|tg rest Hok _ IH]; simpl; [done|].
  destruct (annotateTaskGroup tg annotations) as [tg' [err|]] eqn:Htg.
  - exfalso. apply Hok, (annotateTaskGroup_error_iff tg annotations).
    rewrite Htg. by eexists.
  - by rewrite IH.
Qed.

(** The loop stops at the first failing task group: the groups before it
    are annotated, the failing one keeps its merged Updates only, the ones
    after it are as they were. *)
Lemma annotateTaskGroups_split before tg after annotations e :
  Forall (λ g, ¬ malformedCount g) before →
  snd (annotateTaskGroup tg annotations) = Some e →
  annotateTaskGroups (before ++ tg :: after) annotations
  = (((λ g, fst (annotateTaskGroup g annotations)) <$> before)
       ++ annotateUpdates tg annotations :: after,
     Some e).
Proof.
  intros Hbefore Herr.
  induction Hbefore as [|g rest Hok _ IH]; simpl.
  - pose proof (annotateTaskGroup_error tg annotations e Herr) as Hst.
    destruct (annotateTaskGroup tg annotations) as [tg' r].
    simpl in *. by subst.
  - destruct (annotateTaskGroup g annotations) as [g' [err|]] eqn:Hg.
    + exfalso. apply Hok, (annotateTaskGroup_error_iff g annotations).
      rewrite Hg. by eexists.
    + by rewrite IH.
Qed.

Lemma annotateTaskGroups_error tgDiffs annotations e :
  snd (annotateTaskGroups tgDiffs annotations) = Some e →
  ∃ before tg after,
    tgDiffs = before ++ tg :: after
    ∧ Forall (λ g, ¬ malformedCount g) before
    ∧ snd (annotateTaskGroup tg annotations) = Some e.
Proof.
  induction tgDiffs as [|g rest IH]; simpl; [done|].
  destruct (annotateTaskGroup g annotations) as [g' [err|]] eqn:Hg.
  - simpl. intros [= ->]. exists [], g, rest.
    split; [done|]. split; [constructor|]. by rewrite Hg.
  - destruct (annotateTaskGroups rest annotations) as [rest' r].
    simpl. intros ->.
    destruct (IH eq_refl) as (before & tg & after & -> & Hbefore & Htg).
    exists (g :: before), tg, after.
    split; [done|]. split; [|done].
    constructor; [|done].
    rewrite <- (annotateTaskGroup_error_iff g annotations), Hg.
    by intros [? ?].
Qed.

Lemma annotateTaskGroups_error_iff tgDiffs annotations :
  is_Some (snd (annotateTaskGroups tgDiffs annotations))
  ↔ ∃ tg, tg ∈ tgDiffs ∧ malformedCount tg.
Proof.
  split.
  - intros [e He].
    apply annotateTaskGroups_error in He
      as (before & tg & after & -> & _ & Htg).
    exists tg. split.
    + apply elem_of_app. right. apply elem_of_cons. by left.
    + apply (annotateTaskGroup_error_iff tg annotations). by eexists.
  - intros (tg & Hin & Hbad).
    destruct (snd (annotateTaskGroups tgDiffs annotations)) eqn:Hr;
      [by eexists|].
    exfalso. revert Hr Hin.
    induction tgDiffs as [|g rest IH]; simpl.
    + intros _ Hin. by apply elem_of_nil in Hin.
    + destruct (annotateTaskGroup g annotations) as [g' [err|]] eqn:Hg;
        [done|].
      destruct (annotateTaskGroups rest annotations) as [rest' r].
      simpl. intros -> Hin.
      apply elem_of_cons in Hin as [->|Hin]; [|by apply IH].
      apply (annotateTaskGroup_error_iff g annotations) in Hbad.
      rewrite Hg in Hbad. by destruct Hbad.
Qed.


(** Position by position, a task group comes out of the loop either
    untouched or as [annotateTaskGroup] leaves it. *)
Lemma annotateTaskGroups_pointwise tgDiffs annotations :
  Forall2 (λ tg tg', tg' = tg ∨ tg' = fst (annotateTaskGroup tg annotations))
          tgDiffs (fst (annotateTaskGroups tgDiffs annotations)).
Proof.
  induction tgDiffs as [|g rest IH]; simpl; [constructor|].
  destruct (annotateTaskGroup g annotations) as [g' [err|]] eqn:Hg.
  - simpl. constructor; [right; by rewrite Hg|].
    apply Forall_Forall2_diag, Forall_forall. intros tg _. by left.
  - destruct (annotateTaskGroups rest annotations) as [rest' r].
    simpl in *. constructor; [right; by rewrite Hg|done].
Qed.

(** ** Annotate *)

Lemma Annotate_edited job annotations :
  jdType job = DiffTypeEdited →
  Annotate job annotations
  = (mkJobDiff (jdType job)
               (fst (annotateTaskGroups (jdTaskGroups job) annotations)),
     snd (annotateTaskGroups (jdTaskGroups job) annotations)).
Proof.
  intros Hty. unfold Annotate.
  destruct (decide (jdType job ≠ DiffTypeEdited)); [done|].
  destruct (decide (length (jdTaskGroups job) = 0)) as [Hlen|_].
  - apply nil_length_inv in Hlen. rewrite Hlen. simpl.
    destruct job; simpl in *. by subst.
  - by destruct (annotateTaskGroups (jdTaskGroups job) annotations).
Qed.

Lemma Annotate_not_edited job annotations :
  jdType job ≠ DiffTypeEdited → Annotate job annotations = (job, None).
Proof.
  intros Hty. unfold Annotate.
  by destruct (decide (jdType job ≠ DiffTypeEdited)).
Qed.

Lemma Annotate_pointwise job annotations :
  Forall2 (λ tg tg', tg' = tg ∨ tg' = fst (annotateTaskGroup tg annotations))
          (jdTaskGroups job) (jdTaskGroups (fst (Annotate job annotations))).
Proof.
  destruct (decide (jdType job = DiffTypeEdited)) as [Hty|Hty].
  - rewrite Annotate_edited by done. simpl.
    apply annotateTaskGroups_pointwise.
  - rewrite Annotate_not_edited by done. simpl.
    apply Forall_Forall2_diag, Forall_forall. intros tg _. by left.
Qed.

Lemma Annotate_error_iff job annotations :
  is_Some (snd (Annotate job annotations))
  ↔ jdType job = DiffTypeEdited
    ∧ ∃ tg, tg ∈ jdTaskGroups job ∧ malformedCount tg.
Proof.
  destruct (decide (jdType job = DiffTypeEdited)) as [Hty|Hty].
  - rewrite Annotate_edited by done. simpl.
    rewrite annotateTaskGroups_error_iff. tauto.
  - rewrite Annotate_not_edited by done. simpl.
    split; [by intros [? ?]|]. by intros [? _].
Qed.

(** ** The merge of the desired update counts *)

Lemma writeUpdates_guardedWrite tg updates :
  writeUpdates tg updates
  = guardedWrite UpdateTypeDestructiveUpdate (DestructiveUpdate tg)
      (guardedWrite UpdateTypeInplaceUpdate (InPlaceUpdate tg)
         (guardedWrite UpdateTypeDestroy (Stop tg)
            (guardedWrite UpdateTypeMigrate (Migrate tg)
               (guardedWrite UpdateTypeCreate (Place tg)
                  (guardedWrite UpdateTypeIgnore (Ignore tg) updates))))).
Proof. reflexivity. Qed.

Lemma lookup_guardedWrite key count (updates : gmap string N) key' :
  guardedWrite key count updates !! key'
  = if decide (key = key' ∧ count ≠ 0%N) then Some count
    else updates !! key'.
Proof.
  unfold guardedWrite.
  destruct (decide (count ≠ 0%N)) as [Hc|Hc].
  - rewrite lookup_insert.
    destruct (decide (key = key')) as [->|Hk].
    + by rewrite decide_True.
    + rewrite decide_False; [done|]. by intros [? _].
  - rewrite decide_False; [done|]. by intros [_ ?].
Qed.

Local Ltac solve_guards :=
  try done;
  try (match goal with
       | H : _ = _ ∧ _ |- _ => by destruct H as [[=] _]
       end);
  try (match goal with
       | H : ¬ (_ ∧ _) |- _ => by exfalso; apply H
       end).

(** What a lookup in the merged map returns, key by key of the table. *)
Lemma lookup_writeUpdates tg (updates : gmap string N) key :
  (∀ count, (key, count) ∈ updateTable tg → count ≠ 0%N →
            writeUpdates tg updates !! key = Some count)
  ∧ ((∀ count, (key, count) ∈ updateTable tg → count = 0%N) →
     writeUpdates tg updates !! key = updates !! key).
Proof.
  rewrite writeUpdates_guardedWrite, !lookup_guardedWrite.
  unfold updateTable, UpdateTypeIgnore, UpdateTypeCreate, UpdateTypeMigrate,
    UpdateTypeDestroy, UpdateTypeInplaceUpdate, UpdateTypeDestructiveUpdate.
  split.
  - intros count Hin Hnz.
    repeat (apply elem_of_cons in Hin as [[= -> ->]|Hin];
            [repeat case_decide; solve_guards|]).
    by apply elem_of_nil in Hin.
  - intros Hzero.
    repeat case_decide; try done.
    all: match goal with
         | H : _ = _ ∧ _ |- _ =>
             destruct H as [<- Hnz]; exfalso; apply Hnz, Hzero
         end.
    all: repeat (first [by apply list_elem_of_here
                       |apply list_elem_of_further]).
Qed.

Lemma annotateUpdates_entry diff annotations tg :
  desiredUpdates annotations (tgName diff) = Some tg →
  tgUpdates (annotateUpdates diff annotations)
  = Some (writeUpdates tg (default ∅ (tgUpdates diff))).
Proof.
  unfold desiredUpdates, annotateUpdates.
  destruct annotations as [a|]; [|done].
  intros ->. simpl. by destruct (tgUpdates diff).
Qed.


(** C4, as amended.  For every task group diff with [Type == Edited] whose
    name has an entry in [planAnnotations.DesiredTGUpdates],
    [annotateTaskGroup] leaves a non-nil Updates map into which it has
    written exactly those of the six counts that are nonzero, under the
    fixed keys "ignore" (from Ignore), "create" (from Place), "migrate"
    (from Migrate), "destroy" (from Stop), "in-place update" (from
    InPlaceUpdate) and "create/destroy update" (from DestructiveUpdate);
    a zero-valued count writes no key, and every key that is not written
    keeps the binding it had before the call.  In particular, for an entry
    {Place:2, Stop:1, all others 0} and a group whose Updates map was nil
    or empty before the call, Updates contains {"create":2, "destroy":1}
    and no other keys. *)
Theorem annotateTaskGroup_merges_nonzero_counts
    (diff : TaskGroupDiff) (annotations : option PlanAnnotations)
    (tg : DesiredUpdates) :
  tgType diff = DiffTypeEdited →
  desiredUpdates annotations (tgName diff) = Some tg →
  ∃ updates' : gmap string N,
    tgUpdates (fst (annotateTaskGroup diff annotations)) = Some updates'
    ∧ (∀ key count,
         (key, count) ∈ updateTable tg → count ≠ 0%N →
         updates' !! key = Some count)
    ∧ (∀ key,
         (∀ count, (key, count) ∈ updateTable tg → count = 0%N) →
         updates' !! key = default ∅ (tgUpdates diff) !! key)
    ∧ (tg = mkDesiredUpdates 0 2 0 1 0 0 →
       default ∅ (tgUpdates diff) = ∅ →
       updates' = {[ "create" := 2%N; "destroy" := 1%N ]}).
Proof.
  intros Hty Hentry.
  exists (writeUpdates tg (default ∅ (tgUpdates diff))).
  split.
  { rewrite annotateTaskGroup_updates by done.
    by apply annotateUpdates_entry. }
  split; [|split].
  - intros key count. apply lookup_writeUpdates.
  - intros key. apply lookup_writeUpdates.
  - intros -> ->. vm_compute. reflexivity.
Qed.

Lemma annotateTaskGroup_merges_nonzero_counts_witness :
  ∃ updates' : gmap string N,
    tgUpdates
      (fst (annotateTaskGroup
              (mkTaskGroupDiff DiffTypeEdited "web" [] [] None [])
              (Some webPlan)))
    = Some updates'
    ∧ (∀ key count,
         (key, count) ∈ updateTable (mkDesiredUpdates 0 2 0 1 0 0) →
         count ≠ 0%N →
         updates' !! key = Some count)
    ∧ (∀ key,
         (∀ count,
            (key, count) ∈ updateTable (mkDesiredUpdates 0 2 0 1 0 0) →
            count = 0%N) →
         updates' !! key = (∅ : gmap string N) !! key)
    ∧ (mkDesiredUpdates 0 2 0 1 0 0 = mkDesiredUpdates 0 2 0 1 0 0 →
       (∅ : gmap string N) = ∅ →
       updates' = {[ "create" := 2%N; "destroy" := 1%N ]}).
Proof.
  apply (annotateTaskGroup_merges_nonzero_counts
           (mkTaskGroupDiff DiffTypeEdited "web" [] [] None [])
           (Some webPlan) (mkDesiredUpdates 0 2 0 1 0 0)).
  - reflexivity.
  - vm_compute. reflexivity.
Defined.

(** C4, as stated, fails on a group whose Updates map is already
    populated: [staleGroup] is edited, the plan has the entry {Place:2,
    Stop:1, all others 0} for its name, and after the call Updates holds
    the earlier "migrate" key next to "create" and "destroy". *)
Lemma annotateTaskGroup_staleGroup_keeps_migrate :
  tgType staleGroup = DiffTypeEdited
  ∧ desiredUpdates (Some webPlan) (tgName staleGroup)
    = Some (mkDesiredUpdates 0 2 0 1 0 0)
  ∧ tgUpdates (fst (annotateTaskGroup staleGroup (Some webPlan)))
    = Some {[ "create" := 2%N; "destroy" := 1%N; "migrate" := 9%N ]}
  ∧ tgUpdates (fst (annotateTaskGroup staleGroup (Some webPlan)))
    ≠ Some {[ "create" := 2%N; "destroy" := 1%N ]}.
Proof.
  split; [reflexivity|]. split; [vm_compute; reflexivity|].
  assert (tgUpdates (fst (annotateTaskGroup staleGroup (Some webPlan)))
          = Some {[ "create" := 2%N; "destroy" := 1%N; "migrate" := 9%N ]})
    as Heq by (vm_compute; reflexivity).
  split; [exact Heq|].
  rewrite Heq. intros Hmaps.
  apply (f_equal (λ u : option (gmap string N), u ≫= (.!! "migrate")))
    in Hmaps.
  vm_compute in Hmaps. discriminate.
Qed.



(** ** Frame properties of Annotate *)

(** C7.  For every JobDiff whose Type is not Edited, and for every JobDiff
    with [Type == Edited] whose TaskGroups sequence is empty, [Annotate]
    returns success and leaves the whole diff tree unchanged, whether or
    not plan annotations are present. *)
Theorem Annotate_noop_unless_edited_with_groups
    (job : JobDiff) (annotations : option PlanAnnotations) :
  jdType job ≠ DiffTypeEdited ∨ jdTaskGroups job = [] →
  Annotate job annotations = (job, None).
Proof.
  intros [Hty|Hnil].
  - by apply Annotate_not_edited.
  - unfold Annotate. rewrite Hnil. simpl.
    by destruct (decide (jdType job ≠ DiffTypeEdited)).
Qed.

Lemma Annotate_noop_unless_edited_with_groups_witness :
  Annotate (mkJobDiff DiffTypeDeleted
              [mkTaskGroupDiff DiffTypeEdited "web"
                 [mkFieldDiff "Count" "x" "1" []] [] None []])
           None
  = (mkJobDiff DiffTypeDeleted
       [mkTaskGroupDiff DiffTypeEdited "web"
          [mkFieldDiff "Count" "x" "1" []] [] None []],
     None)
  ∧ Annotate (mkJobDiff DiffTypeEdited []) None
    = (mkJobDiff DiffTypeEdited [], None).
Proof.
  split.
  - apply (Annotate_noop_unless_edited_with_groups
             (mkJobDiff DiffTypeDeleted
                [mkTaskGroupDiff DiffTypeEdited "web"
                   [mkFieldDiff "Count" "x" "1" []] [] None []])
             None).
    left. discriminate.
  - apply (Annotate_noop_unless_edited_with_groups
             (mkJobDiff DiffTypeEdited []) None).
    right. reflexivity.
Defined.

(** C6.  For every call to [Annotate], a node is changed only if its
    owning diff has [Type == Edited]: the job keeps its Type and the number
    of its task groups; a task group diff whose Type is not Edited (None,
    Added or Deleted) comes out of the call exactly as it went in, with its
    fields, tasks, Updates and annotations; and a task diff whose Type is
    not Edited comes out exactly as it went in, whatever the Type of its
    task group. *)
Theorem Annotate_changes_only_edited_nodes
    (job : JobDiff) (annotations : option PlanAnnotations)
    (i : nat) (tg : TaskGroupDiff) :
  jdTaskGroups job !! i = Some tg →
  jdType (fst (Annotate job annotations)) = jdType job
  ∧ length (jdTaskGroups (fst (Annotate job annotations)))
    = length (jdTaskGroups job)
  ∧ (tgType tg ≠ DiffTypeEdited →
     jdTaskGroups (fst (Annotate job annotations)) !! i = Some tg)
  ∧ ∃ tg',
      jdTaskGroups (fst (Annotate job annotations)) !! i = Some tg'
      ∧ tgType tg' = tgType tg
      ∧ length (tgTasks tg') = length (tgTasks tg)
      ∧ ∀ k task,
          tgTasks tg !! k = Some task →
          tdType task ≠ DiffTypeEdited →
          tgTasks tg' !! k = Some task.
Proof.
  intros Hi.
  pose proof (Annotate_pointwise job annotations) as Hpt.
  destruct (Forall2_lookup_l _ _ _ _ _ Hpt Hi) as (tg' & Hi' & Hrel).
  assert (jdType (fst (Annotate job annotations)) = jdType job) as Hjt.
  { destruct (decide (jdType job = DiffTypeEdited)) as [Hty|Hty].
    - by rewrite Annotate_edited.
    - by rewrite Annotate_not_edited. }
  split; [done|]. split; [symmetry; by eapply Forall2_length|].
  split.
  - intros Hty. rewrite Hi'. f_equal.
    destruct Hrel as [->| ->]; [done|].
    by rewrite annotateTaskGroup_not_edited.
  - exists tg'. split; [done|].
    assert (tgType tg' = tgType tg
            ∧ Forall2 (λ task task', task' = task ∨ task' = annotateTask task)
                      (tgTasks tg) (tgTasks tg')) as [Htt Htasks].
    { destruct Hrel as [->| ->].
      - split; [done|].
        apply Forall_Forall2_diag, Forall_forall. intros t _. by left.
      - split; [|apply annotateTaskGroup_tasks].
        destruct (decide (tgType tg = DiffTypeEdited)) as [Hty|Hty].
        + pose proof (annotateTaskGroup_edited tg annotations Hty) as Hed.
          simpl in Hed.
          pose proof (annotateCountChange_frame
                        (annotateUpdates tg annotations)) as (Hc & _).
          pose proof (annotateUpdates_frame tg annotations) as (Hu & _).
          destruct (snd (annotateCountChange (annotateUpdates tg annotations)));
            rewrite Hed; simpl; congruence.
        + by rewrite annotateTaskGroup_not_edited. }
    split; [done|]. split; [symmetry; by eapply Forall2_length|].
    intros k task Hk Hty.
    destruct (Forall2_lookup_l _ _ _ _ _ Htasks Hk) as (task' & Hk' & Ht).
    rewrite Hk'. f_equal.
    destruct Ht as [->| ->]; [done|].
    by apply annotateTask_not_edited.
Qed.

Lemma Annotate_changes_only_edited_nodes_witness :
  jdTaskGroups (fst (Annotate mixedJob None)) !! 0
  = mixedJob.(jdTaskGroups) !! 0
  ∧ ∃ tg',
      jdTaskGroups (fst (Annotate mixedJob None)) !! 1 = Some tg'
      ∧ tgTasks tg' !! 0
        = Some (mkTaskDiff DiffTypeAdded
                           [mkFieldDiff "Driver" "" "docker" []] [] []).
Proof.
  split.
  - destruct (Annotate_changes_only_edited_nodes mixedJob None 0
                (mkTaskGroupDiff DiffTypeDeleted "cache"
                   [mkFieldDiff "Count" "2" "" []]
                   [mkTaskDiff DiffTypeEdited [] [] []] None [])
                eq_refl) as (_ & _ & Hsame & _).
    apply Hsame. discriminate.
  - destruct (Annotate_changes_only_edited_nodes mixedJob None 1
                (mkTaskGroupDiff DiffTypeEdited "web"
                   [mkFieldDiff "Count" "3" "5" []]
                   [mkTaskDiff DiffTypeAdded
                               [mkFieldDiff "Driver" "" "docker" []] [] []]
                   None [])
                eq_refl) as (_ & _ & _ & tg' & Hat & _ & _ & Htasks).
    exists tg'. split; [exact Hat|].
    apply Htasks; [reflexivity|discriminate].
Defined.

(** ** Errors of Annotate *)

(** The error of [annotateCountChange] is the one [Atoi] returns for Old,
    or for New once Old has parsed. *)
Lemma annotateCountChange_error_value diff e :
  snd (annotateCountChange diff) = Some e →
  ∃ i f, firstCount (tgFields diff) i f
         ∧ (strconv.Atoi (fdOld f) = inr e
            ∨ (parses (fdOld f) ∧ strconv.Atoi (fdNew f) = inr e)).
Proof.
  unfold annotateCountChange.
  destruct (decide (tgType diff ≠ DiffTypeEdited)); [done|].
  destruct (findCount (tgFields diff)) as [[i f]|] eqn:Hfind; [|done].
  apply findCount_firstCount in Hfind.
  destruct (strconv.Atoi (fdOld f)) as [oldV|eo] eqn:Hold.
  - destruct (strconv.Atoi (fdNew f)) as [newV|en] eqn:Hnew.
    + by destruct (oldV <? newV)%Z, (newV <? oldV)%Z.
    + simpl. intros [= ->]. exists i, f. split; [done|].
      right. split; [by exists oldV|done].
  - simpl. intros [= ->]. exists i, f. split; [done|]. by left.
Qed.

Lemma annotateTaskGroup_error_value diff annotations e :
  snd (annotateTaskGroup diff annotations) = Some e →
  ∃ i f, firstCount (tgFields diff) i f
         ∧ (strconv.Atoi (fdOld f) = inr e
            ∨ (parses (fdOld f) ∧ strconv.Atoi (fdNew f) = inr e)).
Proof.
  intros Herr.
  destruct (decide (tgType diff = DiffTypeEdited)) as [Hty|Hty].
  - pose proof (annotateTaskGroup_edited diff annotations Hty) as Hed.
    simpl in Hed.
    destruct (annotateUpdates_frame diff annotations)
      as (_ & _ & Hfields & _ & _).
    rewrite <- Hfields.
    apply annotateCountChange_error_value.
    destruct (snd (annotateCountChange (annotateUpdates diff annotations)));
      rewrite Hed in Herr; simpl in Herr; [done|discriminate].
  - rewrite annotateTaskGroup_not_edited in Herr by done. discriminate.
Qed.

(** C3, as amended.  [Annotate] returns an error if and only if the job
    diff has [Type == Edited] and some task group diff with
    [Type == Edited] has a first Fields entry named "Count" whose Old or New
    value does not parse as a base-10 integer.  The error is the parse
    error of that entry of the first such task group; [Annotate] returns on
    it immediately: the task groups before the failing one are annotated
    and stay so, the failing group keeps its merged Updates counts while
    its count field and its tasks are left as they were, and the task
    groups after it are not processed. *)
Theorem Annotate_error_iff_malformed_count
    (job : JobDiff) (annotations : option PlanAnnotations) :
  (is_Some (snd (Annotate job annotations))
   ↔ jdType job = DiffTypeEdited
     ∧ ∃ tg, tg ∈ jdTaskGroups job ∧ malformedCount tg)
  ∧ ∀ e,
      snd (Annotate job annotations) = Some e →
      ∃ before tg after,
        jdTaskGroups job = before ++ tg :: after
        ∧ Forall (λ g, ¬ malformedCount g) before
        ∧ malformedCount tg
        ∧ (∃ i f, firstCount (tgFields tg) i f
                  ∧ (strconv.Atoi (fdOld f) = inr e
                     ∨ (parses (fdOld f) ∧ strconv.Atoi (fdNew f) = inr e)))
        ∧ jdTaskGroups (fst (Annotate job annotations))
          = ((λ g, fst (annotateTaskGroup g annotations)) <$> before)
              ++ annotateUpdates tg annotations :: after
        ∧ tgFields (annotateUpdates tg annotations) = tgFields tg
        ∧ tgTasks (annotateUpdates tg annotations) = tgTasks tg.
Proof.
  split; [apply Annotate_error_iff|].
  intros e Herr.
  assert (jdType job = DiffTypeEdited) as Hty.
  { apply (Annotate_error_iff job annotations). by eexists. }
  rewrite Annotate_edited in Herr |- * by done. simpl in *.
  destruct (annotateTaskGroups_error _ _ _ Herr)
    as (before & tg & after & Hsplit & Hbefore & Htg).
  exists before, tg, after.
  split; [done|]. split; [done|]. split.
  { apply (annotateTaskGroup_error_iff tg annotations). by eexists. }
  split; [by eapply annotateTaskGroup_error_value|].
  split.
  { rewrite Hsplit.
    by rewrite (annotateTaskGroups_split before tg after annotations e). }
  by destruct (annotateUpdates_frame tg annotations) as (_ & _ & -> & -> & _).
Qed.

(** C3, as stated, fails on a job diff that is not itself edited:
    [submittedJob] holds an edited task group whose first field named
    "Count" has the Old value "abc", and [Annotate] returns no error. *)
Lemma Annotate_submittedJob_no_error :
  ¬ (is_Some (snd (Annotate submittedJob None))
     ↔ ∃ tg, tg ∈ jdTaskGroups submittedJob ∧ malformedCount tg).
Proof.
  intros [_ Hif].
  assert (is_Some (snd (Annotate submittedJob None))) as [e He];
    [|vm_compute in He; discriminate].
  apply Hif.
  exists (mkTaskGroupDiff DiffTypeEdited "web"
            [mkFieldDiff "Count" "abc" "3" []] [] None []).
  split; [apply list_elem_of_here|].
  split; [reflexivity|].
  exists 0, (mkFieldDiff "Count" "abc" "3" []). split.
  - split; [reflexivity|]. split; [reflexivity|]. intros j g Hj. lia.
  - left. intros [v Hv]. vm_compute in Hv. discriminate.
Qed.

(** ** Signed counts *)

(** C9.  The count parser accepts base-10 integer text with an optional
    sign, not only plain digits: [Atoi] returns the value of every signed
    decimal string in the range of [int], and fails on every other string;
    [Annotate] returns no error on a job diff whose count
    fields are all signed decimals; for a "Count" field with Old = "+3" and
    New = "3" it succeeds and appends no annotation, and with Old = "-1"
    and New = "2" it succeeds and appends "forces create" (in both cases
    the only other change is the merge of the plan's counts into
    Updates). *)
Theorem signed_counts_are_accepted :
  (∀ s v, strconv.Atoi s = inl v ↔ signedDecimal s v)
  ∧ (∀ job annotations,
       (∀ tg i f,
          tg ∈ jdTaskGroups job → tgType tg = DiffTypeEdited →
          firstCount (tgFields tg) i f →
          (∃ v, signedDecimal (fdOld f) v) ∧ (∃ v, signedDecimal (fdNew f) v)) →
       snd (Annotate job annotations) = None)
  ∧ (∀ diff i f,
       tgType diff = DiffTypeEdited → firstCount (tgFields diff) i f →
       fdOld f = "+3" → fdNew f = "3" →
       annotateCountChange diff = (diff, None))
  ∧ (∀ diff i f,
       tgType diff = DiffTypeEdited → firstCount (tgFields diff) i f →
       fdOld f = "-1" → fdNew f = "2" →
       annotateCountChange diff
       = (setField diff i
            (mkFieldDiff (fdName f) "-1" "2"
                         (fdAnnotations f ++ [AnnotationForcesCreate])),
          None))
  ∧ (∀ anns annotations,
       Annotate (countJob "+3" "3" anns) annotations
       = (mkJobDiff DiffTypeEdited
            [annotateUpdates (countGroup "+3" "3" anns) annotations],
          None))
  ∧ (∀ anns annotations,
       Annotate (countJob "-1" "2" anns) annotations
       = (mkJobDiff DiffTypeEdited
            [annotateUpdates
               (countGroup "-1" "2" (anns ++ [AnnotationForcesCreate]))
               annotations],
          None)).
Proof.
  split; [apply Atoi_iff_signedDecimal|].
  split; [|split; [|split; [|split]]].
  - intros job annotations Hsigned.
    destruct (snd (Annotate job annotations)) as [e|] eqn:Herr; [|done].
    exfalso.
    assert (is_Some (snd (Annotate job annotations))) as Hsome
      by (by eexists).
    apply Annotate_error_iff in Hsome
      as (_ & tg & Hin & Hty & i & f & Hfirst & Hbad).
    destruct (Hsigned tg i f Hin Hty Hfirst) as [[vo Ho] [vn Hn]].
    destruct Hbad as [Hbad|Hbad]; apply Hbad; eexists;
      by apply Atoi_signedDecimal.
  - intros diff i f Hty Hfirst Hold Hnew.
    apply findCount_firstCount in Hfirst.
    rewrite (annotateCountChange_parsed diff i f 3 3); try done.
    + by rewrite Hold.
    + by rewrite Hnew.
  - intros diff i f Hty Hfirst Hold Hnew.
    apply findCount_firstCount in Hfirst.
    rewrite (annotateCountChange_parsed diff i f (-1) 2); try done.
    + simpl. unfold appendFieldAnnotation. by rewrite Hold, Hnew.
    + by rewrite Hold.
    + by rewrite Hnew.
  - intros anns [a|]; [|reflexivity].
    unfold Annotate, countJob, countGroup. simpl.
    unfold annotateTaskGroup, annotateUpdates. simpl.
    by destruct (DesiredTGUpdates a !! "web").
  - intros anns [a|]; [|reflexivity].
    unfold Annotate, countJob, countGroup. simpl.
    unfold annotateTaskGroup, annotateUpdates. simpl.
    by destruct (DesiredTGUpdates a !! "web").
Qed.

(** ** The testable properties of the specification, run on the model *)

Example count_up_forces_create :
  Annotate (countJob "3" "5" []) None
  = (countJob "3" "5" [AnnotationForcesCreate], None).
Proof. reflexivity. Qed.

Example count_down_forces_destroy :
  Annotate (countJob "5" "3" []) None
  = (countJob "5" "3" [AnnotationForcesDestroy], None).
Proof. reflexivity. Qed.

Example count_equal_no_annotation :
  Annotate (countJob "03" "3" []) None = (countJob "03" "3" [], None).
Proof. reflexivity. Qed.

Example service_only_in_place :
  annotateTask (mkTaskDiff DiffTypeEdited [] [mkObjectDiff "Service"] [])
  = mkTaskDiff DiffTypeEdited [] [mkObjectDiff "Service"]
               [AnnotationForcesInplaceUpdate].
Proof. reflexivity. Qed.

Example template_destructive_either_order :
  tdAnnotations
    (annotateTask
       (mkTaskDiff DiffTypeEdited []
                   [mkObjectDiff "Service"; mkObjectDiff "Template"] []))
  = [AnnotationForcesDestructiveUpdate]
  ∧ tdAnnotations
      (annotateTask
         (mkTaskDiff DiffTypeEdited []
                     [mkObjectDiff "Template"; mkObjectDiff "Service"] []))
    = [AnnotationForcesDestructiveUpdate].
Proof. split; reflexivity. Qed.

Example changed_field_destructive :
  tdAnnotations
    (annotateTask
       (mkTaskDiff DiffTypeEdited [mkFieldDiff "Driver" "docker" "exec" []]
                   [] []))
  = [AnnotationForcesDestructiveUpdate].
Proof. reflexivity. Qed.

(** The malformed count of "web" stops the call: "api" stays annotated,
    "web" keeps its merged Updates but its tasks are not classified, "db"
    is not processed. *)
Example malformed_count_partial_annotation :
  Annotate partialJob (Some partialPlan)
  = (mkJobDiff DiffTypeEdited
       [mkTaskGroupDiff DiffTypeEdited "api"
          [mkFieldDiff "Count" "3" "5" [AnnotationForcesCreate]]
          [mkTaskDiff DiffTypeEdited [] [mkObjectDiff "Service"]
                      [AnnotationForcesInplaceUpdate]] None [];
        mkTaskGroupDiff DiffTypeEdited "web"
          [mkFieldDiff "Count" "abc" "3" []]
          [mkTaskDiff DiffTypeEdited [] [mkObjectDiff "Service"] []]
          (Some {[ "create" := 2%N; "destroy" := 1%N ]}) [];
        mkTaskGroupDiff DiffTypeEdited "db"
          [mkFieldDiff "Count" "5" "3" []] [] None []],
     Some (strconv.mkNumError "Atoi" "abc" strconv.ErrSyntax)).
Proof. vm_compute. reflexivity. Qed.

(** * Further properties of the annotation code *)

(** ** What a call can change *)

Lemma extendField_nil f : extendField f [] = f.
Proof. unfold extendField. rewrite app_nil_r. by destruct f. Qed.

Lemma extendTask_nil t : extendTask t [] = t.
Proof. unfold extendTask. rewrite app_nil_r. by destruct t. Qed.

(** Field by field, [annotateCountChange] appends at most one directional
    label, and only to the first field named "Count" of an edited group. *)
Lemma annotateCountChange_fields diff k f :
  tgFields diff !! k = Some f →
  ∃ added,
    tgFields (fst (annotateCountChange diff)) !! k = Some (extendField f added)
    ∧ (added = []
       ∨ (tgType diff = DiffTypeEdited ∧ firstCount (tgFields diff) k f
          ∧ (added = [AnnotationForcesCreate]
             ∨ added = [AnnotationForcesDestroy]))).
Proof.
  intros Hk.
  assert (∃ added,
            tgFields diff !! k = Some (extendField f added) ∧ added = [])
    as Hsame.
  { exists []. by rewrite extendField_nil. }
  unfold annotateCountChange.
  destruct (decide (tgType diff ≠ DiffTypeEdited)) as [|Hty].
  { destruct Hsame as (added & ? & ?). exists added. simpl. by auto. }
  apply dec_stable in Hty.
  destruct (findCount (tgFields diff)) as [[i g]|] eqn:Hfind.
  2:{ destruct Hsame as (added & ? & ?). exists added. simpl. by auto. }
  pose proof (proj1 (findCount_firstCount _ _ _) Hfind) as Hfirst.
  destruct (strconv.Atoi (fdOld g)) as [oldV|].
  2:{ destruct Hsame as (added & ? & ?). exists added. simpl. by auto. }
  destruct (strconv.Atoi (fdNew g)) as [newV|].
  2:{ destruct Hsame as (added & ? & ?). exists added. simpl. by auto. }
  assert (∀ label,
            label = AnnotationForcesCreate ∨ label = AnnotationForcesDestroy →
            ∃ added,
              tgFields (setField diff i (appendFieldAnnotation g label)) !! k
              = Some (extendField f added)
              ∧ (added = []
                 ∨ (tgType diff = DiffTypeEdited
                    ∧ firstCount (tgFields diff) k f
                    ∧ (added = [AnnotationForcesCreate]
                       ∨ added = [AnnotationForcesDestroy])))) as Hset.
  { intros label Hlabel. simpl.
    destruct (decide (i = k)) as [->|Hne].
    - destruct Hfirst as (Hi & _). assert (g = f) as -> by congruence.
      exists [label]. split.
      + rewrite list_lookup_insert_eq; [done|]. by eapply lookup_lt_Some.
      + right. split; [done|]. split; [by apply findCount_firstCount|].
        destruct Hlabel as [->| ->]; by auto.
    - exists []. rewrite list_lookup_insert_ne by done.
      rewrite extendField_nil. by auto. }
  destruct (oldV <? newV)%Z; [apply Hset; by left|].
  destruct (newV <? oldV)%Z; [apply Hset; by right|].
  destruct Hsame as (added & ? & ?). exists added. simpl. by auto.
Qed.

Lemma annotateCountChange_fields_length diff :
  length (tgFields (fst (annotateCountChange diff))) = length (tgFields diff).
Proof.
  unfold annotateCountChange.
  destruct (decide (tgType diff ≠ DiffTypeEdited)); [done|].
  destruct (findCount (tgFields diff)) as [[i g]|]; [|done].
  destruct (strconv.Atoi (fdOld g)) as [oldV|]; [|done].
  destruct (strconv.Atoi (fdNew g)) as [newV|]; [|done].
  destruct (oldV <? newV)%Z; [simpl; by rewrite length_insert|].
  destruct (newV <? oldV)%Z; [simpl; by rewrite length_insert|done].
Qed.

(** The fields of a group after [annotateTaskGroup] are those
    [annotateCountChange] leaves. *)
Lemma annotateTaskGroup_fields diff annotations :
  tgFields (fst (annotateTaskGroup diff annotations))
  = tgFields (fst (annotateCountChange diff)).
Proof.
  destruct (decide (tgType diff = DiffTypeEdited)) as [Hty|Hty].
  - pose proof (annotateTaskGroup_edited diff annotations Hty) as Hed.
    simpl in Hed.
    destruct (annotateUpdates_frame diff annotations)
      as (Hmty & _ & Hmf & _ & _).
    assert (tgFields (fst (annotateCountChange
                             (annotateUpdates diff annotations)))
            = tgFields (fst (annotateCountChange diff))) as Hcc.
    { unfold annotateCountChange. rewrite Hmty, Hmf.
      destruct (decide (tgType diff ≠ DiffTypeEdited)); [done|].
      destruct (findCount (tgFields diff)) as [[i g]|]; [|done].
      destruct (strconv.Atoi (fdOld g)) as [oldV|]; [|done].
      destruct (strconv.Atoi (fdNew g)) as [newV|]; [|done].
      destruct (oldV <? newV)%Z; [simpl; by rewrite Hmf|].
      destruct (newV <? oldV)%Z; [simpl; by rewrite Hmf|done]. }
    destruct (snd (annotateCountChange (annotateUpdates diff annotations)))
      as [e|] eqn:Herr; rewrite Hed; simpl; [|done].
    rewrite <- Hcc.
    by rewrite (proj1 (annotateCountChange_error _ e Herr)).
  - rewrite annotateTaskGroup_not_edited, annotateCountChange_not_edited
      by done.
    done.
Qed.

Lemma annotateTaskGroup_frame diff annotations :
  let diff' := fst (annotateTaskGroup diff annotations) in
  tgType diff' = tgType diff ∧ tgName diff' = tgName diff
  ∧ tgAnnotations diff' = tgAnnotations diff.
Proof.
  destruct (decide (tgType diff = DiffTypeEdited)) as [Hty|Hty].
  - pose proof (annotateTaskGroup_edited diff annotations Hty) as Hed.
    simpl in Hed.
    destruct (annotateUpdates_frame diff annotations)
      as (Hmty & Hmn & _ & _ & Hma).
    pose proof (annotateCountChange_frame (annotateUpdates diff annotations))
      as (Hcty & Hcn & _ & _ & Hca).
    destruct (snd (annotateCountChange (annotateUpdates diff annotations)));
      rewrite Hed; simpl; repeat split; congruence.
  - by rewrite annotateTaskGroup_not_edited.
Qed.

Lemma annotateTask_extendTask t :
  ∃ added,
    annotateTask t = extendTask t added
    ∧ (added = [] ∨ (tdType t = DiffTypeEdited ∧ added = [taskLabel t])).
Proof.
  destruct (decide (tdType t = DiffTypeEdited)) as [Hty|Hty].
  - exists [taskLabel t]. split; [by rewrite annotateTask_edited|by right].
  - exists []. rewrite annotateTask_not_edited, extendTask_nil by done.
    by auto.
Qed.

(** X1.  [Annotate] is append-only.  Position by position, a task group
    keeps its Type, Name, group-level Annotations and the number of its
    fields and tasks; every field diff keeps its Name, Old and New and gets
    at most one label appended, which happens only to the first field named
    "Count" of an edited group in an edited job and is then "forces create"
    or "forces destroy"; every task diff keeps its Type, Fields and Objects
    and gets at most one label appended, which happens only to an edited
    task of an edited group in an edited job and is then the label of its
    verdict.  Nothing is ever removed, reordered or rewritten. *)
Theorem Annotate_append_only
    (job : JobDiff) (annotations : option PlanAnnotations)
    (i : nat) (tg : TaskGroupDiff) :
  jdTaskGroups job !! i = Some tg →
  ∃ tg',
    jdTaskGroups (fst (Annotate job annotations)) !! i = Some tg'
    ∧ tgType tg' = tgType tg
    ∧ tgName tg' = tgName tg
    ∧ tgAnnotations tg' = tgAnnotations tg
    ∧ length (tgFields tg') = length (tgFields tg)
    ∧ length (tgTasks tg') = length (tgTasks tg)
    ∧ (∀ k f,
         tgFields tg !! k = Some f →
         ∃ added,
           tgFields tg' !! k = Some (extendField f added)
           ∧ (added = []
              ∨ (jdType job = DiffTypeEdited ∧ tgType tg = DiffTypeEdited
                 ∧ firstCount (tgFields tg) k f
                 ∧ (added = [AnnotationForcesCreate]
                    ∨ added = [AnnotationForcesDestroy]))))
    ∧ (∀ k t,
         tgTasks tg !! k = Some t →
         ∃ added,
           tgTasks tg' !! k = Some (extendTask t added)
           ∧ (added = []
              ∨ (jdType job = DiffTypeEdited ∧ tgType tg = DiffTypeEdited
                 ∧ tdType t = DiffTypeEdited ∧ added = [taskLabel t]))).
Proof.
  intros Hi.
  assert (∀ tg0 : TaskGroupDiff,
            (∀ k f, tgFields tg0 !! k = Some f →
               ∃ added : list string,
                 tgFields tg0 !! k = Some (extendField f added) ∧ added = [])
            ∧ (∀ k t, tgTasks tg0 !! k = Some t →
                 ∃ added : list string,
                   tgTasks tg0 !! k = Some (extendTask t added) ∧ added = []))
    as Hid.
  { intros tg0. split; intros k x Hk; exists [].
    - by rewrite extendField_nil.
    - by rewrite extendTask_nil. }
  pose proof (Annotate_pointwise job annotations) as Hpt.
  destruct (Forall2_lookup_l _ _ _ _ _ Hpt Hi) as (tg' & Hi' & Hrel).
  exists tg'. split; [done|].
  assert (tg' = tg
          ∨ (jdType job = DiffTypeEdited ∧ tgType tg = DiffTypeEdited
             ∧ tg' = fst (annotateTaskGroup tg annotations))) as [->|Hed].
  { destruct Hrel as [->| ->]; [by left|].
    destruct (decide (tgType tg = DiffTypeEdited)) as [Hty|Hty];
      [|left; by rewrite annotateTaskGroup_not_edited].
    destruct (decide (jdType job = DiffTypeEdited)) as [Hj|Hj];
      [by right|].
    left. rewrite Annotate_not_edited in Hi' by done. simpl in Hi'.
    congruence. }
  - destruct (Hid tg) as [Hf Ht].
    repeat (split; [done|]). split.
    + intros k f Hk. destruct (Hf k f Hk) as (added & ? & ->).
      exists []. by auto.
    + intros k t Hk. destruct (Ht k t Hk) as (added & ? & ->).
      exists []. by auto.
  - destruct Hed as (Hj & Hty & ->).
    destruct (annotateTaskGroup_frame tg annotations) as (Ht1 & Ht2 & Ht3).
    pose proof (annotateTaskGroup_tasks tg annotations) as Htasks.
    split; [done|]. split; [done|]. split; [done|].
    split.
    { by rewrite annotateTaskGroup_fields, annotateCountChange_fields_length. }
    split; [symmetry; by eapply Forall2_length|].
    split.
    + intros k f Hk. rewrite annotateTaskGroup_fields.
      destruct (annotateCountChange_fields tg k f Hk)
        as (added & Hk' & Hadded).
      exists added. split; [done|].
      destruct Hadded as [->|(_ & Hfirst & Hlab)]; [by left|].
      right. by auto.
    + intros k t Hk.
      destruct (Forall2_lookup_l _ _ _ _ _ Htasks Hk) as (t' & Hk' & Ht').
      destruct Ht' as [->| ->].
      * exists []. rewrite extendTask_nil. by auto.
      * destruct (annotateTask_extendTask t) as (added & Heq & Hadded).
        exists added. rewrite Hk', Heq. split; [done|].
        destruct Hadded as [->|[Htt ->]]; [by left|].
        right. by auto.
Qed.

Lemma Annotate_append_only_witness :
  ∃ tg',
    jdTaskGroups
      (fst (Annotate (mkJobDiff DiffTypeEdited [twoCountsGroup])
                     (Some twoCountsPlan)))
    !! 0 = Some tg'
    ∧ tgAnnotations tg' = ["kept"]
    ∧ length (tgFields tg') = 3.
Proof.
  destruct (Annotate_append_only
              (mkJobDiff DiffTypeEdited [twoCountsGroup])
              (Some twoCountsPlan) 0 twoCountsGroup eq_refl)
    as (tg' & Hat & _ & _ & Hanns & Hlen & _).
  exists tg'. split; [exact Hat|]. split; [exact Hanns|exact Hlen].
Defined.

(** ** The Updates map *)

Lemma guardedWrite_provenance key count (updates : gmap string N) key' v :
  guardedWrite key count updates !! key' = Some v →
  updates !! key' = Some v ∨ (key' = key ∧ v = count ∧ count ≠ 0%N).
Proof.
  rewrite lookup_guardedWrite.
  destruct (decide (key = key' ∧ count ≠ 0%N)) as [[-> Hnz]|_].
  - intros [= <-]. by right.
  - by left.
Qed.

Lemma guardedWrite_keeps_keys key count (updates : gmap string N) key' :
  is_Some (updates !! key') →
  is_Some (guardedWrite key count updates !! key').
Proof.
  rewrite lookup_guardedWrite.
  by destruct (decide (key = key' ∧ count ≠ 0%N)).
Qed.

Lemma writeUpdates_provenance tg (updates : gmap string N) key v :
  writeUpdates tg updates !! key = Some v →
  updates !! key = Some v ∨ (v ≠ 0%N ∧ (key, v) ∈ updateTable tg).
Proof.
  rewrite writeUpdates_guardedWrite.
  unfold updateTable, UpdateTypeIgnore, UpdateTypeCreate, UpdateTypeMigrate,
    UpdateTypeDestroy, UpdateTypeInplaceUpdate, UpdateTypeDestructiveUpdate.
  intros H.
  repeat (apply guardedWrite_provenance in H as [H|(-> & -> & Hnz)];
          [|right; split; [done|];
            repeat (first [by apply list_elem_of_here
                          |apply list_elem_of_further])]).
  by left.
Qed.

Lemma writeUpdates_keeps_keys tg (updates : gmap string N) key :
  is_Some (updates !! key) → is_Some (writeUpdates tg updates !! key).
Proof.
  intros H. rewrite writeUpdates_guardedWrite.
  by repeat apply guardedWrite_keeps_keys.
Qed.

Lemma writeUpdates_idempotent tg (updates : gmap string N) :
  writeUpdates tg (writeUpdates tg updates) = writeUpdates tg updates.
Proof.
  apply map_eq. intros key.
  rewrite !writeUpdates_guardedWrite, !lookup_guardedWrite.
  repeat case_decide; done.
Qed.

(** The "Annotate the updates" block, by the entry of the plan. *)
Lemma annotateUpdates_desired diff annotations :
  annotateUpdates diff annotations
  = match desiredUpdates annotations (tgName diff) with
    | None => diff
    | Some tg =>
        setUpdates diff (Some (writeUpdates tg (default ∅ (tgUpdates diff))))
    end.
Proof.
  unfold annotateUpdates, desiredUpdates.
  destruct annotations as [a|]; [|done].
  destruct (DesiredTGUpdates a !! tgName diff); [|done].
  by destruct (tgUpdates diff).
Qed.

Lemma annotateTaskGroup_updates_any diff annotations :
  tgUpdates (fst (annotateTaskGroup diff annotations))
  = if decide (tgType diff = DiffTypeEdited)
    then tgUpdates (annotateUpdates diff annotations)
    else tgUpdates diff.
Proof.
  destruct (decide (tgType diff = DiffTypeEdited)) as [Hty|Hty].
  - by apply annotateTaskGroup_updates.
  - by rewrite annotateTaskGroup_not_edited.
Qed.

(** X2.  Where the bindings of Updates come from.  After
    [annotateTaskGroup], every binding of the group's Updates map either
    was there before the call, or is a nonzero count of the plan's entry
    for the group's own name under that count's fixed key (and then the
    group is edited): the call writes no zero, no key outside the six, and
    nothing from another group's entry.  It drops nothing either: a map
    that was allocated stays allocated and keeps every key it had. *)
Theorem annotateTaskGroup_updates_provenance
    (diff : TaskGroupDiff) (annotations : option PlanAnnotations) :
  (∀ updates' key count,
     tgUpdates (fst (annotateTaskGroup diff annotations)) = Some updates' →
     updates' !! key = Some count →
     (∃ updates, tgUpdates diff = Some updates ∧ updates !! key = Some count)
     ∨ (tgType diff = DiffTypeEdited ∧ count ≠ 0%N
        ∧ ∃ tg, desiredUpdates annotations (tgName diff) = Some tg
                ∧ (key, count) ∈ updateTable tg))
  ∧ (∀ updates,
       tgUpdates diff = Some updates →
       ∃ updates',
         tgUpdates (fst (annotateTaskGroup diff annotations)) = Some updates'
         ∧ ∀ key, is_Some (updates !! key) → is_Some (updates' !! key)).
Proof.
  rewrite annotateTaskGroup_updates_any, annotateUpdates_desired.
  destruct (decide (tgType diff = DiffTypeEdited)) as [Hty|Hty];
    [destruct (desiredUpdates annotations (tgName diff)) as [tg|] eqn:Hentry|].
  - simpl. split.
    + intros updates' key count [= <-] Hlook.
      apply writeUpdates_provenance in Hlook as [Hold|[Hnz Hin]].
      * left. destruct (tgUpdates diff) as [m|]; simpl in Hold.
        -- by exists m.
        -- by rewrite lookup_empty in Hold.
      * right. split; [done|]. split; [done|]. by exists tg.
    + intros updates ->. eexists. split; [done|].
      intros key. simpl. apply writeUpdates_keeps_keys.
  - split.
    + intros updates' key count Hup Hlook. left. by exists updates'.
    + intros updates Hup. by exists updates.
  - split.
    + intros updates' key count Hup Hlook. left. by exists updates'.
    + intros updates Hup. by exists updates.
Qed.

Lemma annotateTaskGroup_updates_provenance_witness :
  ∃ updates',
    tgUpdates (fst (annotateTaskGroup twoCountsGroup (Some twoCountsPlan)))
    = Some updates'
    ∧ ∀ key, is_Some (({[ "ignore" := 7%N ]} : gmap string N) !! key) →
             is_Some (updates' !! key).
Proof.
  apply (annotateTaskGroup_updates_provenance twoCountsGroup
           (Some twoCountsPlan)).
  reflexivity.
Defined.

(** X3.  The merge of the plan's counts is idempotent: annotating a task
    group a second time with the same plan annotations leaves its Updates
    map as the first call left it (unlike the labels, which are appended
    again). *)
Theorem annotateTaskGroup_updates_idempotent
    (diff : TaskGroupDiff) (annotations : option PlanAnnotations) :
  tgUpdates
    (fst (annotateTaskGroup (fst (annotateTaskGroup diff annotations))
                            annotations))
  = tgUpdates (fst (annotateTaskGroup diff annotations)).
Proof.
  destruct (annotateTaskGroup_frame diff annotations) as (Hty & Hname & _).
  rewrite (annotateTaskGroup_updates_any (fst _)), Hty.
  destruct (decide (tgType diff = DiffTypeEdited)) as [Hed|Hed]; [|done].
  rewrite annotateUpdates_desired, Hname.
  rewrite !annotateTaskGroup_updates by done.
  rewrite annotateUpdates_desired.
  destruct (desiredUpdates annotations (tgName diff)) as [tg|] eqn:Hentry;
    simpl.
  - by rewrite writeUpdates_idempotent.
  - rewrite annotateTaskGroup_updates by done.
    by rewrite annotateUpdates_desired, Hentry.
Qed.

(** ** The plan annotations are read at the group's own name only *)

Lemma annotateTaskGroup_local diff a1 a2 :
  desiredUpdates a1 (tgName diff) = desiredUpdates a2 (tgName diff) →
  annotateTaskGroup diff a1 = annotateTaskGroup diff a2.
Proof.
  intros Heq. unfold annotateTaskGroup.
  by rewrite !annotateUpdates_desired, Heq.
Qed.

(** X4.  [Annotate] reads the plan annotations only at the names of the
    job's task groups: two plans that agree on the entry (present with the
    same counts, or absent) of every task group name of the job give the
    same tree and the same result.  In particular absent (nil) plan
    annotations behave as a plan without an entry for any of the job's
    groups. *)
Theorem Annotate_plan_read_at_group_names
    (job : JobDiff) (a1 a2 : option PlanAnnotations) :
  (∀ tg, tg ∈ jdTaskGroups job →
         desiredUpdates a1 (tgName tg) = desiredUpdates a2 (tgName tg)) →
  Annotate job a1 = Annotate job a2.
Proof.
  intros Hagree.
  assert (annotateTaskGroups (jdTaskGroups job) a1
          = annotateTaskGroups (jdTaskGroups job) a2) as Hloop.
  { induction (jdTaskGroups job) as [|tg rest IH]; simpl; [done|].
    rewrite (annotateTaskGroup_local tg a1 a2)
      by (apply Hagree, list_elem_of_here).
    rewrite IH; [done|].
    intros g Hg. by apply Hagree, list_elem_of_further. }
  unfold Annotate. by rewrite Hloop.
Qed.

Lemma Annotate_plan_read_at_group_names_witness :
  Annotate (mkJobDiff DiffTypeEdited [twoCountsGroup]) None
  = Annotate (mkJobDiff DiffTypeEdited [twoCountsGroup])
             (Some (mkPlanAnnotations
                      {[ "db" := mkDesiredUpdates 1 0 0 0 0 0 ]})).
Proof.
  apply (Annotate_plan_read_at_group_names
           (mkJobDiff DiffTypeEdited [twoCountsGroup]) None
           (Some (mkPlanAnnotations
                    {[ "db" := mkDesiredUpdates 1 0 0 0 0 0 ]}))).
  intros tg Hin. apply list_elem_of_singleton in Hin as ->.
  vm_compute. reflexivity.
Defined.

(** ** The error of a call *)

Lemma findCount_sameCount fields fields' :
  Forall2 sameCount fields fields' →
  (findCount fields = None ∧ findCount fields' = None)
  ∨ ∃ i f g, findCount fields = Some (i, f)
             ∧ findCount fields' = Some (i, g) ∧ sameCount f g.
Proof.
  induction 1 as [|f g fs gs Hfg _ IH]; simpl; [by left|].
  pose proof Hfg as (Hname & _ & _). rewrite <- Hname.
  destruct (String.eqb (fdName f) "Count").
  - right. by exists 0, f, g.
  - destruct IH as [[-> ->]|(i & f' & g' & -> & -> & Hs)]; [by left|].
    right. by exists (S i), f', g'.
Qed.

(** Whether and how the count parse fails depends on the Type of the group
    and on the Name, Old and New of its fields only. *)
Lemma annotateCountChange_snd_sameCount d1 d2 :
  tgType d1 = tgType d2 →
  Forall2 sameCount (tgFields d1) (tgFields d2) →
  snd (annotateCountChange d1) = snd (annotateCountChange d2).
Proof.
  intros Hty Hfields. unfold annotateCountChange. rewrite Hty.
  destruct (decide (tgType d2 ≠ DiffTypeEdited)); [done|].
  destruct (findCount_sameCount _ _ Hfields)
    as [[-> ->]|(i & f & g & -> & -> & _ & Hold & Hnew)]; [done|].
  rewrite Hold, Hnew.
  destruct (strconv.Atoi (fdOld g)) as [oldV|]; [|done].
  destruct (strconv.Atoi (fdNew g)) as [newV|]; [|done].
  by destruct (oldV <? newV)%Z, (newV <? oldV)%Z.
Qed.

Lemma sameCount_refl_fields (fields : list FieldDiff) :
  Forall2 sameCount fields fields.
Proof. apply Forall_Forall2_diag, Forall_forall. by intros f _. Qed.

Lemma annotateCountChange_sameCount diff :
  Forall2 sameCount (tgFields diff) (tgFields (fst (annotateCountChange diff))).
Proof.
  apply Forall2_same_length_lookup_2.
  - by rewrite annotateCountChange_fields_length.
  - intros k f g Hf Hg.
    destruct (annotateCountChange_fields diff k f Hf) as (added & Hk & _).
    rewrite Hk in Hg. by injection Hg as <-.
Qed.

(** The error of [annotateTaskGroup] is the one [annotateCountChange]
    gives on the group as it came in. *)
Lemma annotateTaskGroup_snd diff annotations :
  snd (annotateTaskGroup diff annotations) = snd (annotateCountChange diff).
Proof.
  destruct (decide (tgType diff = DiffTypeEdited)) as [Hty|Hty].
  - pose proof (annotateTaskGroup_edited diff annotations Hty) as Hed.
    simpl in Hed.
    destruct (annotateUpdates_frame diff annotations)
      as (Hmty & _ & Hmf & _ & _).
    assert (snd (annotateCountChange (annotateUpdates diff annotations))
            = snd (annotateCountChange diff)) as Hsnd.
    { apply annotateCountChange_snd_sameCount; [done|].
      rewrite Hmf. apply sameCount_refl_fields. }
    rewrite <- Hsnd.
    destruct (snd (annotateCountChange (annotateUpdates diff annotations)));
      by rewrite Hed.
  - by rewrite annotateTaskGroup_not_edited, annotateCountChange_not_edited.
Qed.

Lemma annotateTaskGroups_snd tgDiffs annotations :
  snd (annotateTaskGroups tgDiffs annotations) = firstCountError tgDiffs.
Proof.
  induction tgDiffs as [|tg rest IH]; simpl; [done|].
  rewrite <- (annotateTaskGroup_snd tg annotations).
  destruct (annotateTaskGroup tg annotations) as [tg' [err|]]; simpl; [done|].
  by destruct (annotateTaskGroups rest annotations).
Qed.

Lemma Annotate_snd job annotations :
  snd (Annotate job annotations)
  = if decide (jdType job = DiffTypeEdited)
    then firstCountError (jdTaskGroups job) else None.
Proof.
  destruct (decide (jdType job = DiffTypeEdited)) as [Hty|Hty].
  - rewrite Annotate_edited by done. simpl. apply annotateTaskGroups_snd.
  - by rewrite Annotate_not_edited.
Qed.

(** X5.  The result of [Annotate] does not depend on the plan annotations:
    it is nil for a job diff that is not edited, and otherwise the error
    [annotateCountChange] gives on the first task group, in order, whose
    count does not parse (nil if there is none), the groups being taken as
    they came in.  So no plan can cause, hide or change an error. *)
Theorem Annotate_error_independent_of_plan
    (job : JobDiff) (a1 a2 : option PlanAnnotations) :
  snd (Annotate job a1)
  = (if decide (jdType job = DiffTypeEdited)
     then firstCountError (jdTaskGroups job) else None)
  ∧ snd (Annotate job a1) = snd (Annotate job a2).
Proof. by rewrite !Annotate_snd. Qed.

Lemma annotateTaskGroup_snd_stable diff annotations :
  snd (annotateCountChange (fst (annotateTaskGroup diff annotations)))
  = snd (annotateCountChange diff).
Proof.
  destruct (annotateTaskGroup_frame diff annotations) as (Hty & _ & _).
  apply annotateCountChange_snd_sameCount; [done|].
  rewrite annotateTaskGroup_fields.
  apply Forall2_flip.
  eapply Forall2_impl; [apply annotateCountChange_sameCount|].
  intros f g (? & ? & ?). by repeat split.
Qed.

Lemma firstCountError_pointwise tgDiffs tgDiffs' :
  Forall2 (λ tg tg', snd (annotateCountChange tg')
                     = snd (annotateCountChange tg)) tgDiffs tgDiffs' →
  firstCountError tgDiffs' = firstCountError tgDiffs.
Proof.
  induction 1 as [|tg tg' rest rest' Heq _ IH]; simpl; [done|].
  by rewrite Heq, IH.
Qed.

(** X6.  What [Annotate] writes is nothing it reads when it decides to
    fail: a second call on the tree the first call left, with any plan
    annotations, returns the same result as the first (the same error, or
    nil again). *)
Theorem Annotate_again_same_result
    (job : JobDiff) (a1 a2 : option PlanAnnotations) :
  snd (Annotate (fst (Annotate job a1)) a2) = snd (Annotate job a1).
Proof.
  rewrite !Annotate_snd.
  assert (jdType (fst (Annotate job a1)) = jdType job) as ->.
  { destruct (decide (jdType job = DiffTypeEdited)) as [Hty|Hty].
    - by rewrite Annotate_edited.
    - by rewrite Annotate_not_edited. }
  destruct (decide (jdType job = DiffTypeEdited)); [|done].
  apply firstCountError_pointwise.
  eapply Forall2_impl; [apply Annotate_pointwise|].
  intros tg tg' [->| ->]; [done|].
  apply annotateTaskGroup_snd_stable.
Qed.

(** ** Repeated and complete annotation *)

Lemma destructiveVerdict_extendTask diff added :
  destructiveVerdict (extendTask diff added) = destructiveVerdict diff.
Proof. reflexivity. Qed.

(** X7.  [annotateTask] does not read the annotations it writes, so it is
    not idempotent on an edited task: every further call appends the same
    label once more; [n] calls append [n] copies of the label of the
    verdict and change nothing else. *)
Theorem annotateTask_repeated (n : nat) (diff : TaskDiff) :
  tdType diff = DiffTypeEdited →
  Nat.iter n annotateTask diff
  = extendTask diff (replicate n (taskLabel diff)).
Proof.
  intros Hty. induction n as [|n IH].
  - simpl. by rewrite extendTask_nil.
  - rewrite Nat.iter_succ, IH, replicate_S_end.
    rewrite annotateTask_edited by done.
    unfold appendTaskAnnotation, extendTask. simpl.
    rewrite <- app_assoc. reflexivity.
Qed.

Lemma annotateTask_repeated_witness :
  Nat.iter 2 annotateTask
    (mkTaskDiff DiffTypeEdited [] [mkObjectDiff "Vault"] [])
  = extendTask (mkTaskDiff DiffTypeEdited [] [mkObjectDiff "Vault"] [])
      (replicate 2
         (taskLabel (mkTaskDiff DiffTypeEdited [] [mkObjectDiff "Vault"] []))).
Proof.
  apply (annotateTask_repeated 2
           (mkTaskDiff DiffTypeEdited [] [mkObjectDiff "Vault"] [])).
  reflexivity.
Defined.

Lemma existsb_unsafeObjects objects :
  existsb (λ o, negb (inplaceObject (odName o))) (unsafeObjects objects)
  = existsb (λ o, negb (inplaceObject (odName o))) objects.
Proof.
  unfold unsafeObjects.
  induction objects as [|o rest IH]; simpl; [done|].
  destruct (negb (inplaceObject (odName o))) eqn:Ho; simpl.
  - by rewrite Ho.
  - done.
Qed.

(** X8.  Objects named in the allow-list never matter for the verdict:
    dropping all of them from Objects leaves the verdict of [annotateTask]
    and the task it returns (up to the Objects themselves) unchanged, and
    the verdict of a task with more objects appended is the verdict before
    OR "one of the new objects is outside the allow-list". *)
Theorem destructiveVerdict_ignores_allow_listed
    (diff : TaskDiff) (more : list ObjectDiff) :
  destructiveVerdict (setObjects diff (unsafeObjects (tdObjects diff)))
  = destructiveVerdict diff
  ∧ tdAnnotations
      (annotateTask (setObjects diff (unsafeObjects (tdObjects diff))))
    = tdAnnotations (annotateTask diff)
  ∧ destructiveVerdict (setObjects diff (tdObjects diff ++ more))
    = destructiveVerdict diff
      || existsb (λ o, negb (inplaceObject (odName o))) more.
Proof.
  assert (destructiveVerdict
            (setObjects diff (unsafeObjects (tdObjects diff)))
          = destructiveVerdict diff) as Hsame.
  { unfold destructiveVerdict. simpl.
    by rewrite !scanObjects_existsb, existsb_unsafeObjects. }
  split; [done|]. split.
  - unfold annotateTask. rewrite Hsame. simpl.
    destruct (decide (tdType diff ≠ DiffTypeEdited)); [done|].
    by destruct (destructiveVerdict diff).
  - unfold destructiveVerdict. simpl.
    rewrite !scanObjects_existsb, existsb_app.
    by rewrite orb_assoc.
Qed.

Lemma TaskGroupDiff_eta tg :
  tg = mkTaskGroupDiff (tgType tg) (tgName tg) (tgFields tg) (tgTasks tg)
                       (tgUpdates tg) (tgAnnotations tg).
Proof. by destruct tg. Qed.

(** X9.  A successful call leaves no edited node out.  If [Annotate]
    returns nil on an edited job diff, then every edited task group, at its
    position, comes out with the plan's counts merged into Updates, its
    count field classified, and every one of its tasks passed through
    [annotateTask]; its Type, Name and group-level Annotations are as
    before. *)
Theorem Annotate_success_annotates_every_edited_group
    (job : JobDiff) (annotations : option PlanAnnotations)
    (i : nat) (tg : TaskGroupDiff) :
  jdType job = DiffTypeEdited →
  snd (Annotate job annotations) = None →
  jdTaskGroups job !! i = Some tg →
  tgType tg = DiffTypeEdited →
  jdTaskGroups (fst (Annotate job annotations)) !! i
  = Some (mkTaskGroupDiff DiffTypeEdited (tgName tg)
            (tgFields (fst (annotateCountChange tg)))
            (annotateTask <$> tgTasks tg)
            (tgUpdates (annotateUpdates tg annotations))
            (tgAnnotations tg)).
Proof.
  intros Hj Hok Hi Hty.
  rewrite Annotate_edited in Hok |- * by done. simpl in *.
  assert (Forall (λ g, ¬ malformedCount g) (jdTaskGroups job)) as Hall.
  { apply Forall_forall. intros g Hg Hbad.
    assert (is_Some (snd (annotateTaskGroups (jdTaskGroups job) annotations)))
      as [e He] by (apply annotateTaskGroups_error_iff; by exists g).
    congruence. }
  rewrite annotateTaskGroups_success by done. simpl.
  rewrite list_lookup_fmap, Hi. simpl. f_equal.
  assert (¬ malformedCount tg) as Hgood.
  { by apply (proj1 (Forall_forall _ _) Hall), list_elem_of_lookup_2 with i. }
  pose proof (annotateTaskGroup_edited tg annotations Hty) as Hed.
  simpl in Hed.
  destruct (snd (annotateCountChange (annotateUpdates tg annotations)))
    as [e|] eqn:Herr.
  { exfalso. apply Hgood, (annotateUpdates_malformedCount tg annotations).
    by apply (annotateCountChange_error _ e). }
  rewrite (TaskGroupDiff_eta (fst (annotateTaskGroup tg annotations))).
  destruct (annotateTaskGroup_frame tg annotations) as (-> & -> & ->).
  rewrite annotateTaskGroup_fields, annotateTaskGroup_updates, Hty by done.
  by rewrite Hed.
Qed.

Lemma Annotate_success_annotates_every_edited_group_witness :
  jdTaskGroups
    (fst (Annotate (mkJobDiff DiffTypeEdited [twoCountsGroup])
                   (Some twoCountsPlan)))
  !! 0
  = Some (mkTaskGroupDiff DiffTypeEdited (tgName twoCountsGroup)
            (tgFields (fst (annotateCountChange twoCountsGroup)))
            (annotateTask <$> tgTasks twoCountsGroup)
            (tgUpdates (annotateUpdates twoCountsGroup (Some twoCountsPlan)))
            (tgAnnotations twoCountsGroup)).
Proof.
  apply (Annotate_success_annotates_every_edited_group
           (mkJobDiff DiffTypeEdited [twoCountsGroup]) (Some twoCountsPlan)
           0 twoCountsGroup); reflexivity.
Defined.

(** X10.  A job diff none of whose task groups is edited comes back from
    [Annotate] unchanged and without error, whatever its own Type, the
    content of the groups (malformed counts included) and the plan. *)
Theorem Annotate_noop_without_edited_group
    (job : JobDiff) (annotations : option PlanAnnotations) :
  (∀ tg, tg ∈ jdTaskGroups job → tgType tg ≠ DiffTypeEdited) →
  Annotate job annotations = (job, None).
Proof.
  intros Hnone.
  destruct (decide (jdType job = DiffTypeEdited)) as [Hj|Hj];
    [|by apply Annotate_not_edited].
  rewrite Annotate_edited by done.
  rewrite annotateTaskGroups_success.
  - simpl.
    assert ((λ g, fst (annotateTaskGroup g annotations)) <$> jdTaskGroups job
            = jdTaskGroups job) as ->.
    { induction (jdTaskGroups job) as [|g rest IH]; simpl; [done|].
      rewrite annotateTaskGroup_not_edited
        by (apply Hnone, list_elem_of_here).
      simpl. f_equal. apply IH.
      intros tg Htg. by apply Hnone, list_elem_of_further. }
    by destruct job.
  - apply Forall_forall. intros g Hg [Hty _]. by apply (Hnone g).
Qed.

Lemma Annotate_noop_without_edited_group_witness :
  Annotate
    (mkJobDiff DiffTypeEdited
       [mkTaskGroupDiff DiffTypeAdded "web" [mkFieldDiff "Count" "" "x" []]
          [mkTaskDiff DiffTypeEdited [] [] []] None []])
    None
  = (mkJobDiff DiffTypeEdited
       [mkTaskGroupDiff DiffTypeAdded "web" [mkFieldDiff "Count" "" "x" []]
          [mkTaskDiff DiffTypeEdited [] [] []] None []],
     None).
Proof.
  apply (Annotate_noop_without_edited_group
           (mkJobDiff DiffTypeEdited
              [mkTaskGroupDiff DiffTypeAdded "web"
                 [mkFieldDiff "Count" "" "x" []]
                 [mkTaskDiff DiffTypeEdited [] [] []] None []])
           None).
  intros tg Hin. apply list_elem_of_singleton in Hin as ->. discriminate.
Defined.

(** ** Task groups are annotated one after the other *)

Lemma annotateTaskGroups_app l1 l2 annotations :
  annotateTaskGroups (l1 ++ l2) annotations
  = match annotateTaskGroups l1 annotations with
    | (l1', Some err) => (l1' ++ l2, Some err)
    | (l1', None) =>
        let '(l2', r) := annotateTaskGroups l2 annotations in
        (l1' ++ l2', r)
    end.
Proof.
  induction l1 as [|tg rest IH]; simpl.
  - by destruct (annotateTaskGroups l2 annotations).
  - destruct (annotateTaskGroup tg annotations) as [tg' [err|]]; [done|].
    rewrite IH.
    destruct (annotateTaskGroups rest annotations) as [rest' [err|]];
      [done|].
    by destruct (annotateTaskGroups l2 annotations).
Qed.

(** X11.  [Annotate] works through the task groups in order and each group
    is annotated on its own: for an edited job diff whose task groups are
    [l1 ++ l2], if the call on [l1] alone fails, the call on the whole fails
    with the same error, leaves [l1] as that call leaves it and [l2]
    untouched; if it succeeds, the whole call leaves [l1] as that call
    leaves it, followed by what the call on [l2] alone leaves, and returns
    the result of the call on [l2]. *)
Theorem Annotate_groups_in_sequence
    (l1 l2 : list TaskGroupDiff) (annotations : option PlanAnnotations) :
  Annotate (mkJobDiff DiffTypeEdited (l1 ++ l2)) annotations
  = match Annotate (mkJobDiff DiffTypeEdited l1) annotations with
    | (job1, Some err) =>
        (mkJobDiff DiffTypeEdited (jdTaskGroups job1 ++ l2), Some err)
    | (job1, None) =>
        let '(job2, r) :=
          Annotate (mkJobDiff DiffTypeEdited l2) annotations in
        (mkJobDiff DiffTypeEdited (jdTaskGroups job1 ++ jdTaskGroups job2), r)
    end.
Proof.
  rewrite !Annotate_edited by done. simpl.
  rewrite annotateTaskGroups_app.
  destruct (annotateTaskGroups l1 annotations) as [l1' [err|]]; simpl;
    [done|].
  by destruct (annotateTaskGroups l2 annotations).
Qed.
